(** * Graph helpers of [utils/visualizations.py]: adjacency conversion,
    degree statistics and the visualization dispatcher

    The Python module is embedded as pure functions in an exception monad.
    NumPy arrays are kept as NumPy has them (a shape and the cells, one or two
    dimensions), scalars are 64-bit integers or IEEE binary64 values
    ([spec_float]), and what the module hands to matplotlib, networkx and
    igraph is returned as a value describing the drawing. *)

From Stdlib Require Import String Ascii DecimalString.
From Stdlib Require Import List ZArith Lia Bool Permutation Sorted.
From Stdlib Require Import Floats.SpecFloat.
From Stdlib Require Import Reals Lra.
Import ListNotations.

Local Open Scope list_scope.

(** ** Exceptions and the result monad *)

(** The exceptions the module can end with.  The two it raises itself
    ([assert] and [raise Exception]) carry their formatted message; the
    others come from the Python runtime and NumPy. *)
Inductive exn : Type :=
| AssertionError (msg : string)
| ValueError
| IndexError
| TypeError
| KeyError (key : Z)
| Exception (msg : string).

Inductive result (A : Type) : Type :=
| Ok (a : A)
| Raise (e : exn).

Arguments Ok {A} a.
Arguments Raise {A} e.

Definition bind {A B : Type} (c : result A) (k : A -> result B) : result B :=
  match c with
  | Ok a => k a
  | Raise e => Raise e
  end.

Declare Scope py_scope.
Delimit Scope py_scope with py.
Notation "x <- c ;; k" := (bind c (fun x => k))
  (at level 61, c at next level, right associativity) : py_scope.
Notation "' p <- c ;; k" := (bind c (fun x => match x with p => k end))
  (at level 61, p pattern, c at next level, right associativity) : py_scope.
Local Open Scope py_scope.

(** [for x in xs: body], the loop state threaded through the iterations;
    an exception in an iteration ends the loop. *)
Fixpoint for_each {X S : Type} (xs : list X) (body : X -> S -> result S) (s : S)
  : result S :=
  match xs with
  | [] => Ok s
  | x :: rest => s' <- body x s ;; for_each rest body s'
  end.

(** [range(n)] *)
Definition range (n : nat) : list nat := seq 0 n.

(** ** NumPy scalars and arrays *)

(** IEEE binary64 *)
Definition prec64 : Z := 53.
Definition emax64 : Z := 1024.

Definition float_of_int (k : Z) : spec_float :=
  binary_normalize prec64 emax64 k 0 false.

(** A cell of an array: [int64] or [float64]. *)
Inductive npscalar : Type :=
| NpInt (z : Z)
| NpFloat (f : spec_float).

(** [np.isinf] on one cell *)
Definition np_isinf (x : npscalar) : bool :=
  match x with
  | NpInt _ => false
  | NpFloat (S754_infinity _) => true
  | NpFloat _ => false
  end.

(** [x == k] for a Python int [k] *)
Definition np_eq_int (x : npscalar) (k : Z) : bool :=
  match x with
  | NpInt z => (z =? k)%Z
  | NpFloat f => SFeqb f (float_of_int k)
  end.

(** [x == y] between two cells, as [set] compares its members *)
Definition np_eq (x y : npscalar) : bool :=
  match x, y with
  | NpInt a, NpInt b => (a =? b)%Z
  | NpInt a, NpFloat g => SFeqb (float_of_int a) g
  | NpFloat f, NpInt b => SFeqb f (float_of_int b)
  | NpFloat f, NpFloat g => SFeqb f g
  end.

(** [operator.index]: only integers index an array *)
Definition as_index (x : npscalar) : option Z :=
  match x with
  | NpInt z => Some z
  | NpFloat _ => None
  end.

(** An [ndarray] of one or two dimensions.  A two-dimensional array keeps its
    shape beside its rows, as an array with no row still has a width. *)
Inductive ndarray : Type :=
| Nd1 (xs : list npscalar)
| Nd2 (h w : nat) (rows : list (list npscalar)).

Definition shape (a : ndarray) : list nat :=
  match a with
  | Nd1 xs => [length xs]
  | Nd2 h w _ => [h; w]
  end.

Definition elements (a : ndarray) : list npscalar :=
  match a with
  | Nd1 xs => xs
  | Nd2 _ _ rows => concat rows
  end.

(** The rows of a two-dimensional array agree with its shape. *)
Definition wf_ndarray (a : ndarray) : bool :=
  match a with
  | Nd1 _ => true
  | Nd2 h w rows =>
      (length rows =? h)%nat && forallb (fun r => (length r =? w)%nat) rows
  end.

(** [a[i, j]] for [i], [j] taken from a [range] *)
Definition getitem2 (a : ndarray) (i j : nat) : result npscalar :=
  match a with
  | Nd1 _ => Raise IndexError
  | Nd2 _ _ rows =>
      match nth_error rows i with
      | None => Raise IndexError
      | Some r =>
          match nth_error r j with
          | None => Raise IndexError
          | Some c => Ok c
          end
      end
  end.

(** [a.shape[k]] *)
Definition shape_at (a : ndarray) (k : nat) : result nat :=
  match nth_error (shape a) k with
  | Some n => Ok n
  | None => Raise IndexError
  end.

(** [h, w = a.shape] *)
Definition unpack_shape2 (a : ndarray) : result (nat * nat) :=
  match shape a with
  | [h; w] => Ok (h, w)
  | _ => Raise ValueError
  end.

(** Column [j] of a list of rows *)
Fixpoint column (j : nat) (rows : list (list npscalar)) : list npscalar :=
  match rows with
  | [] => []
  | r :: rest =>
      match nth_error r j with
      | Some c => c :: column j rest
      | None => column j rest
      end
  end.

(** [a.transpose()]: nothing to do in one dimension *)
Definition transpose (a : ndarray) : ndarray :=
  match a with
  | Nd1 xs => Nd1 xs
  | Nd2 h w rows => Nd2 w h (map (fun j => column j rows) (seq 0 w))
  end.

(** [np.asarray] of a list of [[src, trg]] pairs: an (N, 2) integer array,
    and the empty one-dimensional array for the empty list. *)
Definition asarray_pairs (l : list (Z * Z)) : ndarray :=
  match l with
  | [] => Nd1 []
  | _ => Nd2 (length l) 2 (map (fun p => [NpInt (fst p); NpInt (snd p)]) l)
  end.

(** ** Python values passed as arguments *)

(** An argument is an [ndarray] or an object of another class, of which only
    the class name matters ([type(x)] is printed in the assertion message). *)
Inductive pyobj : Type :=
| PyArray (a : ndarray)
| PyObject (class_name : string).

Definition repr_nat (n : nat) : string := NilEmpty.string_of_uint (Nat.to_uint n).

(** [repr] of a shape tuple *)
Definition repr_shape (s : list nat) : string :=
  match s with
  | [] => "()"
  | [n] => "(" ++ repr_nat n ++ ",)"
  | n :: rest =>
      "(" ++ repr_nat n ++ fold_right (fun k acc => ", " ++ repr_nat k ++ acc) ")" rest
  end%string.

Definition expected_array_msg (class_name : string) : string :=
  ("Expected NumPy array got <class '" ++ class_name ++ "'>.")%string.

Definition expected_square_msg (a : ndarray) : string :=
  ("Expected square shape got = " ++ repr_shape (shape a) ++ ".")%string.

(** ** [convert_adj_to_edge_index] *)

(** [0 if np.isinf(adjacency_matrix).any() else 1] *)
Definition active_value (adjacency_matrix : ndarray) : Z :=
  if existsb np_isinf (elements adjacency_matrix) then 0%Z else 1%Z.

(** The body of the inner loop (lines 29 and 30): the pair is appended when
    the cell equals the active value. *)
Definition scan_cell (adjacency_matrix : ndarray) (av : Z)
    (src_node_id trg_nod_id : nat) (edge_index : list (Z * Z))
  : result (list (Z * Z)) :=
  c <- getitem2 adjacency_matrix src_node_id trg_nod_id ;;
  if np_eq_int c av
  then Ok (edge_index ++ [(Z.of_nat src_node_id, Z.of_nat trg_nod_id)])
  else Ok edge_index.

(** The two nested loops over [range(h)] and [range(w)] (lines 26 to 30). *)
Definition scan_cells (adjacency_matrix : ndarray) (h w : nat) (av : Z)
  : result (list (Z * Z)) :=
  for_each (range h) (fun src_node_id edge_index =>
    for_each (range w) (scan_cell adjacency_matrix av src_node_id) edge_index) [].

Definition convert_adj_to_edge_index (adjacency_matrix : pyobj) : result ndarray :=
  match adjacency_matrix with
  | PyObject cls => Raise (AssertionError (expected_array_msg cls))
  | PyArray a =>
      '(h, w) <- unpack_shape2 a ;;
      if negb (h =? w)%nat
      then Raise (AssertionError (expected_square_msg a))
      else
        edge_index <- scan_cells a h w (active_value a) ;;
        Ok (transpose (asarray_pairs edge_index))
  end.

(** ** [get_num_nodes_from_edge_index] *)

(** A Python [set] of array cells, kept as the list of its members: a cell is
    added when no member compares equal to it. *)
Definition py_set_add (s : list npscalar) (x : npscalar) : list npscalar :=
  if existsb (np_eq x) s then s else s ++ [x].

Definition py_set (l : list npscalar) : list npscalar :=
  fold_left py_set_add l [].

Definition py_set_union (s1 s2 : list npscalar) : list npscalar :=
  fold_left py_set_add s2 s1.

(** [a[i]] handed to [set(...)]: a row of a two-dimensional array can be
    iterated, a cell of a one-dimensional array cannot. *)
Definition iter_getitem (a : ndarray) (i : nat) : result (list npscalar) :=
  match a with
  | Nd1 xs => if (i <? length xs)%nat then Raise TypeError else Raise IndexError
  | Nd2 _ _ rows =>
      match nth_error rows i with
      | Some r => Ok r
      | None => Raise IndexError
      end
  end.

Definition get_num_nodes_from_edge_index (edge_index : ndarray) : result nat :=
  sources <- iter_getitem edge_index 0 ;;
  targets <- iter_getitem edge_index 1 ;;
  Ok (length (py_set_union (py_set sources) (py_set targets))).

(** ** [plot_in_out_degree_distributions] *)

(** [np.zeros(n, dtype=np.int)] ([np.int] being the builtin [int]).  The
    cells are 64-bit counters; a counter never exceeds the number of edges,
    so it stays in range and is kept as an integer. *)
Definition np_zeros (n : nat) : list Z := repeat 0%Z n.

(** Position of index [i] in an array of length [n]: NumPy counts a negative
    index from the end. *)
Definition norm_index (n : nat) (i : Z) : option nat :=
  if (0 <=? i)%Z && (i <? Z.of_nat n)%Z then Some (Z.to_nat i)
  else if (- Z.of_nat n <=? i)%Z && (i <? 0)%Z then Some (Z.to_nat (i + Z.of_nat n))
  else None.

Fixpoint add_one_at (k : nat) (arr : list Z) : list Z :=
  match arr, k with
  | [], _ => []
  | x :: rest, O => (x + 1)%Z :: rest
  | x :: rest, S k' => x :: add_one_at k' rest
  end.

(** [arr[x] += 1] *)
Definition increment_at (arr : list Z) (x : npscalar) : result (list Z) :=
  match as_index x with
  | None => Raise IndexError
  | Some i =>
      match norm_index (length arr) i with
      | None => Raise IndexError
      | Some k => Ok (add_one_at k arr)
      end
  end.

(** The pass over the edges (lines 48 to 58): the state is the pair
    [(in_degrees, out_degrees)]. *)
Definition count_in_out_degrees (edge_index : ndarray) (num_of_nodes : nat)
  : result (list Z * list Z) :=
  num_of_edges <- shape_at edge_index 1 ;;
  for_each (range num_of_edges) (fun cnt degrees =>
    let '(in_degrees, out_degrees) := degrees in
    source_node_id <- getitem2 edge_index 0 cnt ;;
    target_node_id <- getitem2 edge_index 1 cnt ;;
    out_degrees' <- increment_at out_degrees source_node_id ;;
    in_degrees' <- increment_at in_degrees target_node_id ;;
    Ok (in_degrees', out_degrees'))
    (np_zeros num_of_nodes, np_zeros num_of_nodes).

(** [np.max] of an integer array; there is no maximum of an empty one. *)
Definition np_max_int (arr : list Z) : result Z :=
  match arr with
  | [] => Raise ValueError
  | x :: rest => Ok (fold_left Z.max rest x)
  end.

(** The histogram of out-degrees (lines 60 to 62).  NumPy keeps it as
    [float64]; its cells are counts of nodes, which that type holds exactly. *)
Definition out_degree_histogram (out_degrees : list Z) : result (list Z) :=
  max_out_degree <- np_max_int out_degrees ;;
  for_each out_degrees (fun out_degree hist => increment_at hist (NpInt out_degree))
    (np_zeros (Z.to_nat (max_out_degree + 1))).

(** What is handed to matplotlib: the three curves and the title of the
    third. *)
Record degree_plots : Type := {
  plot_in_degrees : list Z;
  plot_out_degrees : list Z;
  plot_hist : list Z;
  plot_hist_title : string
}.

(** Lines 60 to 79: the histogram, and the three plots. *)
Definition degree_plots_of (in_degrees out_degrees : list Z) (dataset_name : string)
  : result degree_plots :=
  hist <- out_degree_histogram out_degrees ;;
  Ok {| plot_in_degrees := in_degrees;
        plot_out_degrees := out_degrees;
        plot_hist := hist;
        plot_hist_title :=
          ("Node out degree distribution for " ++ dataset_name ++ " dataset")%string |}.

(** Lines 43-44 and 91-92, the same in both functions: an array whose two
    dimensions are equal goes through [convert_adj_to_edge_index]. *)
Definition edge_index_of_input (a : ndarray) : result ndarray :=
  n0 <- shape_at a 0 ;;
  n1 <- shape_at a 1 ;;
  if (n0 =? n1)%nat then convert_adj_to_edge_index (PyArray a) else Ok a.

(** Lines 46 to 79, on the edge index in use. *)
Definition degree_distributions (edge_index : ndarray) (dataset_name : string)
  : result degree_plots :=
  num_of_nodes <- get_num_nodes_from_edge_index edge_index ;;
  '(in_degrees, out_degrees) <- count_in_out_degrees edge_index num_of_nodes ;;
  degree_plots_of in_degrees out_degrees dataset_name.

Definition plot_in_out_degree_distributions (edge_index : pyobj) (dataset_name : string)
  : result degree_plots :=
  match edge_index with
  | PyObject cls => Raise (AssertionError (expected_array_msg cls))
  | PyArray a =>
      edge_index <- edge_index_of_input a ;;
      degree_distributions edge_index dataset_name
  end.

Definition int_rows (rows : list (list Z)) : list (list npscalar) :=
  map (map NpInt) rows.

(** ** The igraph edge-width heuristic (lines 126 to 128)

    [np.log] and the division are outside [spec_float]'s operations, so this
    arithmetic is on the reals extended with the two infinities and NaN:
    the special values of IEEE arithmetic are kept, rounding and the sign of
    zero are left out. *)

Inductive npfloat : Type :=
| Fin (r : R)
| PInf
| NInf
| NaN.

(** [np.log]: minus infinity at zero, NaN below *)
Definition np_log (r : R) : npfloat :=
  if Rlt_dec 0 r then Fin (ln r)
  else if Req_dec_T r 0 then NInf
  else NaN.

(** [np.clip(x, a_min=0, a_max=None)] *)
Definition np_clip_min0 (x : npfloat) : npfloat :=
  match x with
  | Fin r => if Rlt_dec r 0 then Fin 0 else Fin r
  | PInf => PInf
  | NInf => Fin 0
  | NaN => NaN
  end.

(** The larger of two values; NaN wins, as in [np.max]. *)
Definition np_maximum (x y : npfloat) : npfloat :=
  match x, y with
  | NaN, _ | _, NaN => NaN
  | PInf, _ | _, PInf => PInf
  | NInf, z | z, NInf => z
  | Fin a, Fin b => Fin (Rmax a b)
  end.

(** [np.max] of a float array; there is no maximum of an empty one. *)
Definition np_max (l : list npfloat) : result npfloat :=
  match l with
  | [] => Raise ValueError
  | x :: rest => Ok (fold_left np_maximum rest x)
  end.

(** [x / y] *)
Definition np_div (x y : npfloat) : npfloat :=
  match x, y with
  | NaN, _ | _, NaN => NaN
  | Fin a, Fin b =>
      if Req_dec_T b 0
      then (if Req_dec_T a 0 then NaN else if Rlt_dec 0 a then PInf else NInf)
      else Fin (a / b)
  | Fin _, (PInf | NInf) => Fin 0
  | PInf, Fin b => if Rlt_dec b 0 then NInf else PInf
  | NInf, Fin b => if Rlt_dec b 0 then PInf else NInf
  | (PInf | NInf), (PInf | NInf) => NaN
  end.

(** [w**6] *)
Definition pow6 (w : npfloat) : npfloat :=
  match w with
  | Fin r => Fin (r ^ 6)
  | PInf | NInf => PInf
  | NaN => NaN
  end.

Definition edge_weights_raw (betweenness : list R) : list npfloat :=
  map (fun b => np_clip_min0 (np_log b)) betweenness.

Definition edge_weights_raw_normalized (betweenness : list R) : result (list npfloat) :=
  let raw := edge_weights_raw betweenness in
  m <- np_max raw ;;
  Ok (map (fun x => np_div x m) raw).

Definition edge_weights (betweenness : list R) : result (list npfloat) :=
  normalized <- edge_weights_raw_normalized betweenness ;;
  Ok (map pow6 normalized).

(** ** [visualize_graph] *)

(** Modelled from the spec: the enumeration [GraphVisualizationTool] of
    [utils/constants.py] is not among the sources.  The selector is a member
    of an enumeration: the two supported variants, and any further member,
    known by its [name]. *)
Inductive GraphVisualizationTool : Type :=
| NETWORKX
| IGRAPH
| OTHER_TOOL (name : string).

(** [DatasetType.CORA.name]: the [name] of a member of an enumeration is its
    identifier. *)
Definition DatasetType_CORA_name : string := "CORA"%string.

(** [str.lower] on ASCII text *)
Definition lower_ascii (c : ascii) : ascii :=
  let n := nat_of_ascii c in
  if (65 <=? n)%nat && (n <=? 90)%nat then ascii_of_nat (n + 32) else c.

Fixpoint lower (s : string) : string :=
  match s with
  | EmptyString => EmptyString
  | String c rest => String (lower_ascii c) (lower rest)
  end.

(** What the module uses of igraph.  A [Graph] object is updated in place by
    [add_vertices] and [add_edges]; here each update returns the graph.
    [add_edges] is the one call that checks its argument. *)
Record igraph_api : Type := {
  ig_graph : Type;
  ig_layout : Type;
  ig_Graph : ig_graph;
  ig_add_vertices : ig_graph -> nat -> ig_graph;
  ig_add_edges : ig_graph -> list (npscalar * npscalar) -> result ig_graph;
  ig_edge_betweenness : ig_graph -> list R;
  ig_degree : ig_graph -> list Z;
  ig_layout_kamada_kawai : ig_graph -> ig_layout
}.

(** The dictionary [visual_style]; the key ["vertex_color"] is set for Cora
    only. *)
Record visual_style (layout : Type) : Type := {
  vs_bbox : Z * Z;
  vs_margin : Z;
  vs_edge_width : list npfloat;
  vs_vertex_size : list R;
  vs_vertex_color : option (list string);
  vs_layout : layout
}.

Arguments vs_bbox {layout} _.
Arguments vs_margin {layout} _.
Arguments vs_edge_width {layout} _.
Arguments vs_vertex_size {layout} _.
Arguments vs_vertex_color {layout} _.
Arguments vs_layout {layout} _.

(** What a call that returns has drawn and printed. *)
Inductive rendering (ig : igraph_api) : Type :=
| NetworkxDrawing (edges : list (npscalar * npscalar))
| IgraphPlot (g : ig_graph ig) (style : visual_style (ig_layout ig))
    (printed : list string).

Arguments NetworkxDrawing {ig} edges.
Arguments IgraphPlot {ig} g style printed.

Definition label_to_color_map : list (Z * string) :=
  [(0, "red"); (1, "blue"); (2, "green"); (3, "orange"); (4, "yellow");
   (5, "pink"); (6, "gray")]%Z%string.

(** [label_to_color_map[label]] *)
Definition lookup_color (label : Z) : result string :=
  match find (fun kv => (fst kv =? label)%Z) label_to_color_map with
  | Some kv => Ok (snd kv)
  | None => Raise (KeyError label)
  end.

(** [[label_to_color_map[label] for label in node_labels]] *)
Fixpoint vertex_colors (node_labels : list Z) : result (list string) :=
  match node_labels with
  | [] => Ok []
  | label :: rest =>
      c <- lookup_color label ;;
      cs <- vertex_colors rest ;;
      Ok (c :: cs)
  end.

(** [a[i, :]] *)
Definition getrow (a : ndarray) (i : nat) : result (list npscalar) :=
  match a with
  | Nd1 _ => Raise IndexError
  | Nd2 _ _ rows =>
      match nth_error rows i with
      | Some r => Ok r
      | None => Raise IndexError
      end
  end.

(** Lines 94 and 95: the number of nodes and the list of (source, target)
    tuples. *)
Definition nodes_and_edge_tuples (edge_index : ndarray)
  : result (nat * list (npscalar * npscalar)) :=
  num_of_nodes <- get_num_nodes_from_edge_index edge_index ;;
  sources <- getrow edge_index 0 ;;
  targets <- getrow edge_index 1 ;;
  Ok (num_of_nodes, combine sources targets).

Section Visualize.

(** The igraph in use, and the constant [network_repository_cora_url] of
    [utils/constants.py], which is printed at the end. *)
Variable ig : igraph_api.
Variable network_repository_cora_url : string.

Definition default_coloring_msg : string :=
  "Feel free to add custom color scheme for your specific dataset. Using igraph default coloring."%string.

Definition closing_msgs : list string :=
  [ "Plotting results ... (it may take couple of seconds)."%string;
    ("There are much better tools to visualize core like this one "
       ++ network_repository_cora_url ++ ".")%string;
    "Nonetheless tools like igraph can be useful for quick visualization."%string ].

(** Lines 107 to 109 *)
Definition build_igraph (num_of_nodes : nat)
    (edge_index_tuples : list (npscalar * npscalar)) : result (ig_graph ig) :=
  ig_add_edges ig (ig_add_vertices ig (ig_Graph ig) num_of_nodes) edge_index_tuples.

(** Lines 135 to 139: the colors, and what is printed instead. *)
Definition cora_vertex_colors (dataset_name : string) (node_labels : list Z)
  : result (option (list string) * list string) :=
  if String.eqb (lower dataset_name) (lower DatasetType_CORA_name)
  then colors <- vertex_colors node_labels ;; Ok (Some colors, [])
  else Ok (None, [default_coloring_msg]).

(** Lines 106 to 150, the igraph branch *)
Definition igraph_branch (num_of_nodes : nat)
    (edge_index_tuples : list (npscalar * npscalar))
    (node_labels : list Z) (dataset_name : string) : result (rendering ig) :=
  ig_graph <- build_igraph num_of_nodes edge_index_tuples ;;
  edge_width <- edge_weights (ig_edge_betweenness ig ig_graph) ;;
  let vertex_size := map (fun deg => (IZR deg / 2)%R) (ig_degree ig ig_graph) in
  '(vertex_color, printed) <- cora_vertex_colors dataset_name node_labels ;;
  Ok (IgraphPlot ig_graph
        {| vs_bbox := (3000, 3000)%Z;
           vs_margin := 35%Z;
           vs_edge_width := edge_width;
           vs_vertex_size := vertex_size;
           vs_vertex_color := vertex_color;
           vs_layout := ig_layout_kamada_kawai ig ig_graph |}
        (printed ++ closing_msgs)).

(** Lines 99 to 152: the choice of the tool *)
Definition dispatch_tool (num_of_nodes : nat)
    (edge_index_tuples : list (npscalar * npscalar))
    (node_labels : list Z) (dataset_name : string)
    (visualization_tool : GraphVisualizationTool) : result (rendering ig) :=
  match visualization_tool with
  | NETWORKX => Ok (NetworkxDrawing edge_index_tuples)
  | IGRAPH => igraph_branch num_of_nodes edge_index_tuples node_labels dataset_name
  | OTHER_TOOL name =>
      Raise (Exception ("Visualization tool " ++ name ++ " not supported.")%string)
  end.

(** Lines 94 to 152, on the edge index in use. *)
Definition draw_edge_index (edge_index : ndarray) (node_labels : list Z)
    (dataset_name : string) (visualization_tool : GraphVisualizationTool)
  : result (rendering ig) :=
  '(num_of_nodes, edge_index_tuples) <- nodes_and_edge_tuples edge_index ;;
  dispatch_tool num_of_nodes edge_index_tuples node_labels dataset_name
    visualization_tool.

Definition visualize_graph (edge_index : pyobj) (node_labels : list Z)
    (dataset_name : string) (visualization_tool : GraphVisualizationTool)
  : result (rendering ig) :=
  match edge_index with
  | PyObject cls => Raise (AssertionError (expected_array_msg cls))
  | PyArray a =>
      edge_index <- edge_index_of_input a ;;
      draw_edge_index edge_index node_labels dataset_name visualization_tool
  end.

End Visualize.

(** * Notions used in the statements *)

(** ** Reading the cells of a matrix *)

(** The cell at row [i], column [j], when there is one. *)
Definition cell (a : ndarray) (i j : nat) : option npscalar :=
  match a with
  | Nd1 _ => None
  | Nd2 _ _ rows =>
      match nth_error rows i with
      | Some r => nth_error r j
      | None => None
      end
  end.

(** Does the cell at position [p] compare equal to [av]? *)
Definition is_active (a : ndarray) (av : Z) (p : nat * nat) : bool :=
  match cell a (fst p) (snd p) with
  | Some c => np_eq_int c av
  | None => false
  end.

(** The positions of an [h] by [w] matrix in row-major order: all columns of
    row 0, then row 1, and so on. *)
Definition row_major (h w : nat) : list (nat * nat) :=
  list_prod (seq 0 h) (seq 0 w).

(** The positions whose cell equals [av], in row-major order. *)
Definition active_cells (a : ndarray) (h w : nat) (av : Z) : list (nat * nat) :=
  filter (is_active a av) (row_major h w).

Definition node_ids (p : nat * nat) : Z * Z := (Z.of_nat (fst p), Z.of_nat (snd p)).

(** The pairs an edge index holds: column [k] pairs the [k]-th source with
    the [k]-th target; the empty one-dimensional array holds none. *)
Definition edge_pairs (edge_index : ndarray) : list (npscalar * npscalar) :=
  match edge_index with
  | Nd2 _ _ (sources :: targets :: _) => combine sources targets
  | _ => []
  end.

(** The edge index of shape (2, N) with the given sources and targets. *)
Definition edge_index_of (pairs : list (Z * Z)) : ndarray :=
  Nd2 2 (length pairs) [map (fun p => NpInt (fst p)) pairs; map (fun p => NpInt (snd p)) pairs].

Definition encode_pair (p : nat * nat) : npscalar * npscalar :=
  (NpInt (Z.of_nat (fst p)), NpInt (Z.of_nat (snd p))).

Definition has_infinite (a : ndarray) : Prop :=
  exists c, In c (elements a) /\ np_isinf c = true.

Definition mask_2x2 : list (list npscalar) :=
  [[NpFloat (S754_zero false); NpFloat (S754_infinity true)];
   [NpFloat (S754_infinity true); NpFloat (S754_zero false)]].

Definition adjacency_2x2 : list (list npscalar) := int_rows [[0; 1]; [1; 0]]%Z.

(** [m[i][j] = v] on a list of rows; positions outside are left alone. *)
Fixpoint set_row (r : list Z) (j : nat) (v : Z) : list Z :=
  match r, j with
  | [], _ => []
  | _ :: rest, O => v :: rest
  | x :: rest, S j' => x :: set_row rest j' v
  end.

Fixpoint set_cell (m : list (list Z)) (i j : nat) (v : Z) : list (list Z) :=
  match m, i with
  | [], _ => []
  | r :: rest, O => set_row r j v :: rest
  | r :: rest, S i' => r :: set_cell rest i' j v
  end.

(** Placing a 1 at [(src, trg)] *)
Definition place_edge (n : nat) (m : list (list Z)) (e : npscalar * npscalar)
  : list (list Z) :=
  match as_index (fst e), as_index (snd e) with
  | Some s, Some t =>
      match norm_index n s, norm_index n t with
      | Some i, Some j => set_cell m i j 1%Z
      | _, _ => m
      end
  | _, _ => m
  end.

(** The reconstruction the round trip speaks of: an [n] by [n] matrix of
    zeros, with a 1 placed at [(src, trg)] for every pair of the edge list. *)
Definition rebuild_adjacency (n : nat) (edge_index : ndarray) : list (list Z) :=
  fold_left (place_edge n) (edge_pairs edge_index) (repeat (repeat 0%Z n) n).

Definition get2 (m : list (list Z)) (i j : nat) : option Z :=
  match nth_error m i with
  | Some r => nth_error r j
  | None => None
  end.

(** Every cell is 0 or 1. *)
Definition is_binary (a : ndarray) : bool :=
  forallb (fun c => np_eq_int c 0 || np_eq_int c 1) (elements a).

(** Cell by cell equality of a matrix of cells with a matrix of integers. *)
Definition same_matrix (rows : list (list npscalar)) (m : list (list Z)) : Prop :=
  Forall2 (Forall2 (fun c z => np_eq_int c z = true)) rows m.

(** The shape of a matrix of integers: [h] rows of [w] cells. *)
Definition has_shape (h w : nat) (m : list (list Z)) : Prop :=
  length m = h /\ Forall (fun r => length r = w) m.

Definition at_position (i j : nat) (p : nat * nat) : bool :=
  ((fst p =? i) && (snd p =? j))%nat.

(** A stand-in for igraph, to run the dispatcher on examples: a graph is its
    number of vertices and its edges, [add_edges] accepts integer ids below
    the number of vertices, every edge has betweenness 1. *)
Definition valid_vertex (n : nat) (x : npscalar) : bool :=
  match x with
  | NpInt z => (0 <=? z)%Z && (z <? Z.of_nat n)%Z
  | NpFloat _ => false
  end.

Definition count_incident (edges : list (npscalar * npscalar)) (v : nat) : Z :=
  fold_left (fun acc e =>
    (acc + (if np_eq (fst e) (NpInt (Z.of_nat v)) then 1 else 0)
         + (if np_eq (snd e) (NpInt (Z.of_nat v)) then 1 else 0))%Z) edges 0%Z.

Definition sample_igraph : igraph_api :=
  {| ig_graph := nat * list (npscalar * npscalar);
     ig_layout := unit;
     ig_Graph := (0%nat, []);
     ig_add_vertices := fun g n => ((fst g + n)%nat, snd g);
     ig_add_edges := fun g es =>
       if forallb (fun e => valid_vertex (fst g) (fst e) && valid_vertex (fst g) (snd e)) es
       then Ok (fst g, snd g ++ es)
       else Raise ValueError;
     ig_edge_betweenness := fun g => map (fun _ => 1%R) (snd g);
     ig_degree := fun g => map (count_incident (snd g)) (seq 0 (fst g));
     ig_layout_kamada_kawai := fun _ => tt |}.

Definition triangle : ndarray := Nd2 2 3 (int_rows [[0; 1; 2]; [1; 2; 0]]%Z).

(** A genuine edge index with exactly two edges, (0, 1) and (1, 2). *)
Definition two_edges : ndarray := Nd2 2 2 (int_rows [[0; 1]; [1; 2]]%Z).

Definition valid_label (label : Z) : Prop := (0 <= label <= 6)%Z.

(** The maximum of the normalized weights, before the 6th power. *)
Definition max_normalized_weight (betweenness : list R) : result npfloat :=
  normalized <- edge_weights_raw_normalized betweenness ;;
  np_max normalized.

(** The clipped logarithm as a real number, for a non-negative argument. *)
Definition clipped_log (b : R) : R :=
  if Rlt_dec 0 b then (if Rlt_dec (ln b) 0 then 0 else ln b) else 0.

(** The node ids of an edge list: the sources, then the targets. *)
Definition edge_ids (pairs : list (Z * Z)) : list Z :=
  map fst pairs ++ map snd pairs.

(** The ids are dense: non-negative, and with an id every smaller one. *)
Definition dense_ids (ids : list Z) : Prop :=
  forall id, In id ids ->
    (0 <= id)%Z /\ forall k, (0 <= k <= id)%Z -> In k ids.

(** The largest id, and -1 when there is none. *)
Definition max_id (ids : list Z) : Z := fold_left Z.max ids (-1)%Z.

(** One edge of the pass over the edges: the out-degree of the source, then
    the in-degree of the target. *)
Definition count_edge (p : Z * Z) (degrees : list Z * list Z)
  : result (list Z * list Z) :=
  let '(in_degrees, out_degrees) := degrees in
  out_degrees' <- increment_at out_degrees (NpInt (fst p)) ;;
  in_degrees' <- increment_at in_degrees (NpInt (snd p)) ;;
  Ok (in_degrees', out_degrees').

(** The number of occurrences of an id in a list of ids. *)
Definition count_id (ids : list Z) (v : Z) : Z :=
  Z.of_nat (count_occ Z.eq_dec ids v).

Definition sum_list (l : list Z) : Z := fold_right Z.add 0%Z l.

(** Row by row, and inside a row column by column. *)
Definition row_major_lt (p q : nat * nat) : Prop :=
  (fst p < fst q)%nat \/ (fst p = fst q /\ (snd p < snd q)%nat).

(** The connectivity mask of an integer adjacency matrix (see the comment on
    lines 20 to 23): 0 where the matrix has a 1, minus infinity elsewhere. *)
Definition mask_cell (z : Z) : npscalar :=
  if (z =? 1)%Z then NpFloat (S754_zero false) else NpFloat (S754_infinity true).

Definition mask_of (m : list (list Z)) : list (list npscalar) :=
  map (map mask_cell) m.

(** * Properties *)

(** ** The loops of the converter *)

Lemma getitem2_cell (a : ndarray) (i j : nat) (c : npscalar) :
  cell a i j = Some c -> getitem2 a i j = Ok c.
Proof.
  destruct a as [xs | h w rows]; simpl; [discriminate |].
  destruct (nth_error rows i) as [r |]; [| discriminate].
  intros ->. reflexivity.
Qed.

Lemma wf_cell (h w : nat) (rows : list (list npscalar)) (i j : nat) :
  wf_ndarray (Nd2 h w rows) = true -> (i < h)%nat -> (j < w)%nat ->
  exists c, cell (Nd2 h w rows) i j = Some c.
Proof.
  simpl. intros Hwf Hi Hj.
  apply andb_true_iff in Hwf as [Hlen Hrows].
  apply Nat.eqb_eq in Hlen. subst h.
  destruct (nth_error rows i) as [r |] eqn:Hr.
  - rewrite forallb_forall in Hrows.
    specialize (Hrows r (nth_error_In _ _ Hr)). apply Nat.eqb_eq in Hrows.
    destruct (nth_error r j) as [c |] eqn:Hc; [eauto |].
    apply nth_error_None in Hc. lia.
  - apply nth_error_None in Hr. lia.
Qed.

Section ScanLoops.

Variable a : ndarray.
Variable av : Z.

Lemma inner_loop (i : nat) (cols : list nat) (acc : list (Z * Z)) :
  (forall j, In j cols -> exists c, cell a i j = Some c) ->
  for_each cols (scan_cell a av i) acc
  = Ok (acc ++ map node_ids (filter (is_active a av) (map (pair i) cols))).
Proof.
  revert acc. induction cols as [| j cols IH]; intros acc Hdef; simpl.
  - now rewrite app_nil_r.
  - destruct (Hdef j (or_introl eq_refl)) as [c Hc].
    unfold scan_cell at 1. rewrite (getitem2_cell _ _ _ _ Hc). simpl.
    unfold is_active at 1. simpl. rewrite Hc.
    destruct (np_eq_int c av); simpl.
    + rewrite IH by (intros; apply Hdef; now right).
      now rewrite <- app_assoc.
    + apply IH. intros; apply Hdef; now right.
Qed.

Lemma outer_loop (w : nat) (rws : list nat) (acc : list (Z * Z)) :
  (forall i j, In i rws -> (j < w)%nat -> exists c, cell a i j = Some c) ->
  for_each rws (fun src edge_index => for_each (range w) (scan_cell a av src) edge_index) acc
  = Ok (acc ++ map node_ids (filter (is_active a av) (list_prod rws (seq 0 w)))).
Proof.
  revert acc. induction rws as [| i rws IH]; intros acc Hdef; simpl.
  - now rewrite app_nil_r.
  - unfold range. rewrite inner_loop.
    + simpl. rewrite IH by (intros; apply Hdef; [now right | assumption]).
      now rewrite filter_app, map_app, app_assoc.
    + intros j Hj. apply in_seq in Hj. apply Hdef; [now left | lia].
Qed.

End ScanLoops.

Lemma scan_cells_spec (h w : nat) (rows : list (list npscalar)) (av : Z) :
  wf_ndarray (Nd2 h w rows) = true ->
  scan_cells (Nd2 h w rows) h w av
  = Ok (map node_ids (active_cells (Nd2 h w rows) h w av)).
Proof.
  intros Hwf. unfold scan_cells, active_cells, row_major, range at 1.
  rewrite (outer_loop (Nd2 h w rows) av w (seq 0 h) []).
  - reflexivity.
  - intros i j Hi Hj. apply in_seq in Hi. apply (wf_cell h w rows i j Hwf); lia.
Qed.

Lemma column_pairs (l : list (Z * Z)) :
  column 0 (map (fun p => [NpInt (fst p); NpInt (snd p)]) l) = map (fun p => NpInt (fst p)) l
  /\ column 1 (map (fun p => [NpInt (fst p); NpInt (snd p)]) l) = map (fun p => NpInt (snd p)) l.
Proof.
  induction l as [| p l [IH0 IH1]]; simpl; [split; reflexivity |].
  rewrite IH0, IH1. split; reflexivity.
Qed.

(** The array returned for a list of pairs: shape (2, N) when there is a
    pair, and the empty array of shape (0,) when there is none. *)
Lemma transpose_asarray_pairs (l : list (Z * Z)) :
  transpose (asarray_pairs l)
  = match l with
    | [] => Nd1 []
    | _ => edge_index_of l
    end.
Proof.
  destruct l as [| p l]; [reflexivity |].
  unfold asarray_pairs, transpose, edge_index_of.
  destruct (column_pairs (p :: l)) as [H0 H1].
  set (rows := map (fun q : Z * Z => [NpInt (fst q); NpInt (snd q)]) (p :: l)) in *.
  cbn [seq map]. now rewrite H0, H1.
Qed.

(** What the converter returns on a square matrix. *)
Lemma convert_square (n : nat) (rows : list (list npscalar)) :
  wf_ndarray (Nd2 n n rows) = true ->
  convert_adj_to_edge_index (PyArray (Nd2 n n rows))
  = Ok (transpose (asarray_pairs
         (map node_ids (active_cells (Nd2 n n rows) n n (active_value (Nd2 n n rows)))))).
Proof.
  intros Hwf. unfold convert_adj_to_edge_index, unpack_shape2. simpl shape. cbn [bind].
  rewrite Nat.eqb_refl. cbn [negb].
  rewrite (scan_cells_spec n n rows _ Hwf). reflexivity.
Qed.

Lemma combine_map_pair {A B C : Type} (f : A -> B) (g : A -> C) (l : list A) :
  combine (map f l) (map g l) = map (fun x => (f x, g x)) l.
Proof.
  induction l as [| x l IH]; simpl; [reflexivity | now rewrite IH].
Qed.

Lemma edge_pairs_returned (cells : list (nat * nat)) :
  edge_pairs (transpose (asarray_pairs (map node_ids cells))) = map encode_pair cells.
Proof.
  rewrite transpose_asarray_pairs.
  destruct cells as [| p cells]; [reflexivity |].
  cbn [map]. unfold edge_index_of, edge_pairs.
  rewrite combine_map_pair. cbn [map]. rewrite map_map. reflexivity.
Qed.

Lemma in_row_major (h w i j : nat) :
  In (i, j) (row_major h w) <-> (i < h)%nat /\ (j < w)%nat.
Proof.
  unfold row_major. rewrite in_prod_iff, !in_seq. lia.
Qed.

Lemma cell_in_bounds (h w : nat) (rows : list (list npscalar)) (i j : nat) (c : npscalar) :
  wf_ndarray (Nd2 h w rows) = true -> cell (Nd2 h w rows) i j = Some c ->
  (i < h)%nat /\ (j < w)%nat.
Proof.
  simpl. intros Hwf Hc.
  apply andb_true_iff in Hwf as [Hlen Hrows]. apply Nat.eqb_eq in Hlen. subst h.
  destruct (nth_error rows i) as [r |] eqn:Hr; [| discriminate].
  split.
  - apply nth_error_Some. congruence.
  - rewrite forallb_forall in Hrows.
    specialize (Hrows r (nth_error_In _ _ Hr)). apply Nat.eqb_eq in Hrows.
    rewrite <- Hrows. apply nth_error_Some. congruence.
Qed.

(** A position is emitted exactly when its cell equals the active value. *)
Lemma in_active_cells (h w : nat) (rows : list (list npscalar)) (av : Z) (i j : nat) :
  wf_ndarray (Nd2 h w rows) = true ->
  In (i, j) (active_cells (Nd2 h w rows) h w av)
  <-> exists c, cell (Nd2 h w rows) i j = Some c /\ np_eq_int c av = true.
Proof.
  intros Hwf. unfold active_cells. rewrite filter_In, in_row_major.
  unfold is_active. cbn [fst snd]. split.
  - intros [_ Hact]. destruct (cell (Nd2 h w rows) i j) as [c |]; [eauto | discriminate].
  - intros [c [Hc Heq]]. split.
    + exact (cell_in_bounds h w rows i j c Hwf Hc).
    + now rewrite Hc.
Qed.

Lemma float_of_int_0 : float_of_int 0 = S754_zero false.
Proof. reflexivity. Qed.

Lemma float_of_int_1 : float_of_int 1 = S754_finite false 4503599627370496 (-52).
Proof. vm_compute. reflexivity. Qed.

(** An infinite cell equals neither 0 nor 1, and no cell equals both. *)
Lemma np_isinf_not_binary (c : npscalar) :
  np_isinf c = true -> np_eq_int c 0 = false /\ np_eq_int c 1 = false.
Proof.
  destruct c as [z | f]; cbn [np_isinf np_eq_int]; [discriminate |].
  rewrite float_of_int_0, float_of_int_1.
  destruct f as [s | s | | s m e]; try discriminate.
  intros _. destruct s; split; reflexivity.
Qed.

Lemma np_eq_int_0_not_1 (c : npscalar) :
  np_eq_int c 0 = true -> np_eq_int c 1 = false.
Proof.
  destruct c as [z | f]; cbn [np_eq_int].
  - intros H. apply Z.eqb_eq in H. subst z. reflexivity.
  - rewrite float_of_int_0, float_of_int_1.
    destruct f as [s | s | | s m e]; unfold SFeqb; cbn [SFcompare].
    + reflexivity.
    + destruct s; discriminate.
    + discriminate.
    + destruct s; discriminate.
Qed.

Lemma active_value_infinite (a : ndarray) :
  has_infinite a -> active_value a = 0%Z.
Proof.
  intros [c [Hin Hinf]]. unfold active_value.
  replace (existsb np_isinf (elements a)) with true; [reflexivity |].
  symmetry. apply existsb_exists. eauto.
Qed.

Lemma active_value_finite (a : ndarray) :
  ~ has_infinite a -> active_value a = 1%Z.
Proof.
  intros Hno. unfold active_value.
  destruct (existsb np_isinf (elements a)) eqn:E; [| reflexivity].
  apply existsb_exists in E. contradiction.
Qed.

(** ** The converter: contract, detection of the active value, emitted pairs *)

(** C6: a two-dimensional array whose dimensions differ fails the shape
    assertion, and an argument that is not an array fails the type assertion;
    in both cases the call ends there, with no edge list. *)
Theorem convert_contract_violations
    (h w : nat) (rows : list (list npscalar)) (class_name : string) (Hhw : h <> w) :
  convert_adj_to_edge_index (PyArray (Nd2 h w rows))
  = Raise (AssertionError (expected_square_msg (Nd2 h w rows)))
  /\ convert_adj_to_edge_index (PyObject class_name)
     = Raise (AssertionError (expected_array_msg class_name)).
Proof.
  split; [| reflexivity].
  unfold convert_adj_to_edge_index, unpack_shape2. cbn [shape bind].
  apply Nat.eqb_neq in Hhw. now rewrite Hhw.
Qed.

Lemma convert_contract_violations_witness :
  convert_adj_to_edge_index (PyArray (Nd2 2 3 (int_rows [[0; 1; 0]; [1; 0; 0]]%Z)))
  = Raise (AssertionError "Expected square shape got = (2, 3).")
  /\ convert_adj_to_edge_index (PyObject "list")
     = Raise (AssertionError "Expected NumPy array got <class 'list'>.").
Proof.
  apply (convert_contract_violations 2 3 (int_rows [[0; 1; 0]; [1; 0; 0]]%Z) "list").
  discriminate.
Defined.

(** C2: on a square matrix with an infinite cell the active value is 0 and
    the returned pairs are the positions of the cells equal to 0; on a square
    matrix with no infinite cell the active value is 1. *)
Theorem active_value_detection
    (n : nat) (rows : list (list npscalar)) (Hwf : wf_ndarray (Nd2 n n rows) = true) :
  (has_infinite (Nd2 n n rows) ->
     active_value (Nd2 n n rows) = 0%Z
     /\ exists edge_index,
          convert_adj_to_edge_index (PyArray (Nd2 n n rows)) = Ok edge_index
          /\ edge_pairs edge_index = map encode_pair (active_cells (Nd2 n n rows) n n 0)
          /\ forall i j, In (i, j) (active_cells (Nd2 n n rows) n n 0)
               <-> exists c, cell (Nd2 n n rows) i j = Some c /\ np_eq_int c 0 = true)
  /\ (~ has_infinite (Nd2 n n rows) ->
     active_value (Nd2 n n rows) = 1%Z
     /\ exists edge_index,
          convert_adj_to_edge_index (PyArray (Nd2 n n rows)) = Ok edge_index
          /\ edge_pairs edge_index = map encode_pair (active_cells (Nd2 n n rows) n n 1)).
Proof.
  split; intros Hinf.
  - pose proof (active_value_infinite _ Hinf) as Hav. split; [exact Hav |].
    eexists. split; [apply (convert_square n rows Hwf) |].
    rewrite Hav, edge_pairs_returned. split; [reflexivity |].
    intros i j. apply in_active_cells, Hwf.
  - pose proof (active_value_finite _ Hinf) as Hav. split; [exact Hav |].
    eexists. split; [apply (convert_square n rows Hwf) |].
    now rewrite Hav, edge_pairs_returned.
Qed.

Lemma active_value_detection_witness :
  active_value (Nd2 2 2 mask_2x2) = 0%Z /\ active_value (Nd2 2 2 adjacency_2x2) = 1%Z.
Proof.
  split.
  - apply (proj1 (active_value_detection 2 mask_2x2 eq_refl)).
    exists (NpFloat (S754_infinity true)). split; [simpl; auto | reflexivity].
  - apply (proj2 (active_value_detection 2 adjacency_2x2 eq_refl)).
    intros [c [Hin Hinf]]. simpl in Hin.
    repeat (destruct Hin as [<- | Hin]; [discriminate |]). contradiction.
Defined.

(** C3, at a matrix with no active cell: the list of pairs is empty, and the
    array returned has shape (0,), not two parallel sequences; the callers'
    [edge_index[0]] then raises. *)
Theorem convert_without_edges_returns_flat_array :
  convert_adj_to_edge_index (PyArray (Nd2 2 2 (int_rows [[0; 0]; [0; 0]]%Z))) = Ok (Nd1 [])
  /\ shape (Nd1 []) = [0%nat]
  /\ get_num_nodes_from_edge_index (Nd1 []) = Raise IndexError
  /\ plot_in_out_degree_distributions
       (PyArray (Nd2 2 2 (int_rows [[0; 0]; [0; 0]]%Z))) "zeros" = Raise IndexError.
Proof.
  repeat split; reflexivity.
Qed.

(** With at least one active cell the array returned is the (2, N) edge
    index of the active positions, in row-major order. *)
Lemma convert_square_with_edges (n : nat) (rows : list (list npscalar)) :
  wf_ndarray (Nd2 n n rows) = true ->
  active_cells (Nd2 n n rows) n n (active_value (Nd2 n n rows)) <> [] ->
  convert_adj_to_edge_index (PyArray (Nd2 n n rows))
  = Ok (edge_index_of
          (map node_ids (active_cells (Nd2 n n rows) n n (active_value (Nd2 n n rows))))).
Proof.
  intros Hwf Hne. rewrite (convert_square n rows Hwf), transpose_asarray_pairs.
  destruct (active_cells _ n n _); [contradiction | reflexivity].
Qed.

(** ** Rebuilding the adjacency matrix from the edge list *)

(** ** The round trip through the edge list *)

Lemma Forall2_pointwise {A B : Type} (R : A -> B -> Prop) (l : list A) (l' : list B) :
  length l = length l' ->
  (forall i x y, nth_error l i = Some x -> nth_error l' i = Some y -> R x y) ->
  Forall2 R l l'.
Proof.
  revert l'. induction l as [| x l IH]; intros [| y l'] Hlen Hpt; simpl in Hlen;
    try discriminate; constructor.
  - apply (Hpt 0%nat); reflexivity.
  - apply IH; [lia |]. intros i a b Ha Hb. apply (Hpt (S i)); assumption.
Qed.

Lemma length_set_row (r : list Z) (j : nat) (v : Z) : length (set_row r j v) = length r.
Proof.
  revert j. induction r as [| x r IH]; intros [| j]; simpl; auto.
Qed.

Lemma nth_error_set_row (r : list Z) (j j' : nat) (v : Z) :
  nth_error (set_row r j v) j'
  = if (j =? j')%nat
    then match nth_error r j' with Some _ => Some v | None => None end
    else nth_error r j'.
Proof.
  revert j j'. induction r as [| x r IH]; intros [| j] [| j']; simpl; auto.
  - destruct (j =? j')%nat; reflexivity.
Qed.

Lemma get2_set_cell (m : list (list Z)) (i j i' j' : nat) (v : Z) :
  get2 (set_cell m i j v) i' j'
  = if ((i =? i') && (j =? j'))%nat
    then match get2 m i' j' with Some _ => Some v | None => None end
    else get2 m i' j'.
Proof.
  unfold get2. revert i i'. induction m as [| r m IH]; intros i i'.
  - destruct i, i'; simpl; try reflexivity;
      match goal with |- context [if ?b then _ else _] => destruct b end; reflexivity.
  - destruct i as [| i], i' as [| i']; simpl.
    + apply nth_error_set_row.
    + reflexivity.
    + reflexivity.
    + apply IH.
Qed.

Lemma has_shape_set_cell (h w : nat) (m : list (list Z)) (i j : nat) (v : Z) :
  has_shape h w m -> has_shape h w (set_cell m i j v).
Proof.
  intros [Hlen Hrows]. subst h. revert i.
  induction Hrows as [| r m Hr Hrows IH]; intros [| i]; simpl; split; auto.
  - constructor; [now rewrite length_set_row | assumption].
  - simpl. f_equal. apply (proj1 (IH i)).
  - constructor; [assumption | apply (proj2 (IH i))].
Qed.

Lemma has_shape_zeros (h w : nat) : has_shape h w (repeat (repeat 0%Z w) h).
Proof.
  split; [apply repeat_length |].
  apply Forall_forall. intros r Hr. apply repeat_spec in Hr. subst r. apply repeat_length.
Qed.

Lemma get2_zeros (h w i j : nat) :
  (i < h)%nat -> (j < w)%nat -> get2 (repeat (repeat 0%Z w) h) i j = Some 0%Z.
Proof.
  intros Hi Hj. unfold get2.
  rewrite (nth_error_repeat _ Hi). apply (nth_error_repeat _ Hj).
Qed.

Lemma norm_index_of_nat (n i : nat) : (i < n)%nat -> norm_index n (Z.of_nat i) = Some i.
Proof.
  intros Hi. unfold norm_index.
  replace (0 <=? Z.of_nat i)%Z with true by (symmetry; apply Z.leb_le; lia).
  replace (Z.of_nat i <? Z.of_nat n)%Z with true by (symmetry; apply Z.ltb_lt; lia).
  simpl. now rewrite Nat2Z.id.
Qed.

Lemma existsb_at_position (i j : nat) (cells : list (nat * nat)) :
  existsb (at_position i j) cells = true <-> In (i, j) cells.
Proof.
  rewrite existsb_exists. unfold at_position. split.
  - intros [[a b] [Hin Heq]]. simpl in Heq.
    apply andb_true_iff in Heq as [Ha Hb].
    apply Nat.eqb_eq in Ha, Hb. now subst.
  - intros Hin. exists (i, j). simpl. now rewrite !Nat.eqb_refl.
Qed.

(** Placing the edges of a list of positions: the cells at these positions
    become 1, the others keep their value, and the shape is kept. *)
Lemma place_edges (n : nat) (cells : list (nat * nat)) (m : list (list Z)) :
  (forall p, In p cells -> (fst p < n)%nat /\ (snd p < n)%nat) ->
  has_shape n n m ->
  has_shape n n (fold_left (place_edge n) (map encode_pair cells) m)
  /\ forall i j,
       get2 (fold_left (place_edge n) (map encode_pair cells) m) i j
       = if existsb (at_position i j) cells
         then match get2 m i j with Some _ => Some 1%Z | None => None end
         else get2 m i j.
Proof.
  revert m. induction cells as [| [a b] cells IH]; intros m Hin Hm; simpl.
  - split; [assumption | reflexivity].
  - destruct (Hin (a, b) (or_introl eq_refl)) as [Ha Hb]. simpl in Ha, Hb.
    assert (Hstep : place_edge n m (encode_pair (a, b)) = set_cell m a b 1%Z).
    { unfold place_edge, encode_pair. simpl.
      now rewrite (norm_index_of_nat n a Ha), (norm_index_of_nat n b Hb). }
    rewrite Hstep.
    destruct (IH (set_cell m a b 1%Z)) as [Hshape Hget].
    + intros p Hp. apply Hin. now right.
    + now apply has_shape_set_cell.
    + split; [assumption |]. intros i j. rewrite Hget, get2_set_cell.
      cbn [existsb].
      change (at_position i j (a, b)) with ((a =? i) && (b =? j))%nat.
      destruct ((a =? i) && (b =? j))%nat; cbn [orb].
      * destruct (existsb (at_position i j) cells), (get2 m i j); reflexivity.
      * reflexivity.
Qed.

Lemma is_binary_no_infinite (a : ndarray) : is_binary a = true -> ~ has_infinite a.
Proof.
  unfold is_binary. intros Hbin [c [Hin Hinf]].
  rewrite forallb_forall in Hbin. specialize (Hbin c Hin).
  destruct (np_isinf_not_binary c Hinf) as [H0 H1].
  rewrite H0, H1 in Hbin. discriminate.
Qed.

Lemma cell_in_elements (h w : nat) (rows : list (list npscalar)) (i j : nat) (c : npscalar) :
  cell (Nd2 h w rows) i j = Some c -> In c (elements (Nd2 h w rows)).
Proof.
  simpl. destruct (nth_error rows i) as [r |] eqn:Hr; [| discriminate].
  intros Hc. apply in_concat. exists r. split; eauto using nth_error_In.
Qed.

Lemma same_matrix_int_rows (m m' : list (list Z)) :
  same_matrix (int_rows m) m' -> m = m'.
Proof.
  unfold same_matrix, int_rows. revert m'.
  induction m as [| r m IH]; intros m' H; inversion H as [| ? r' ? m'' Hr Hm]; subst;
    [reflexivity |].
  f_equal; [| now apply IH].
  clear - Hr. revert r' Hr.
  induction r as [| x r IHr]; intros r' Hr; inversion Hr as [| ? y ? r'' Hx Hrest]; subst;
    [reflexivity |].
  simpl in Hx. apply Z.eqb_eq in Hx. subst y. f_equal. now apply IHr.
Qed.

(** C1: on a square matrix of zeros and ones the converter returns an edge
    list, and the matrix of zeros with a 1 placed at every returned pair is
    the original matrix, cell by cell (for an integer matrix, the same
    rows). *)
Theorem adjacency_round_trip
    (n : nat) (rows : list (list npscalar))
    (Hwf : wf_ndarray (Nd2 n n rows) = true)
    (Hbin : is_binary (Nd2 n n rows) = true) :
  exists edge_index,
    convert_adj_to_edge_index (PyArray (Nd2 n n rows)) = Ok edge_index
    /\ same_matrix rows (rebuild_adjacency n edge_index)
    /\ forall m, rows = int_rows m -> rebuild_adjacency n edge_index = m.
Proof.
  set (a := Nd2 n n rows) in *.
  pose proof (active_value_finite a (is_binary_no_infinite a Hbin)) as Hav.
  eexists. split; [apply (convert_square n rows Hwf) |].
  fold a. rewrite Hav.
  assert (Hsame : same_matrix rows
            (rebuild_adjacency n (transpose (asarray_pairs (map node_ids (active_cells a n n 1)))))).
  { unfold rebuild_adjacency. rewrite edge_pairs_returned.
    destruct (place_edges n (active_cells a n n 1) (repeat (repeat 0%Z n) n))
      as [[Hlen Hrows] Hget].
    - intros [i j] Hp. apply (in_active_cells n n rows 1 i j Hwf) in Hp as [c [Hc _]].
      exact (cell_in_bounds n n rows i j c Hwf Hc).
    - apply has_shape_zeros.
    - set (m := fold_left (place_edge n) (map encode_pair (active_cells a n n 1))
                  (repeat (repeat 0%Z n) n)) in *.
      pose proof Hwf as Hwf'. simpl in Hwf'.
      apply andb_true_iff in Hwf' as [Hh Hw]. apply Nat.eqb_eq in Hh.
      rewrite forallb_forall in Hw.
      apply Forall2_pointwise; [congruence |].
      intros i r r' Hr Hr'.
      assert (Hi : (i < n)%nat) by (rewrite <- Hh; apply nth_error_Some; congruence).
      rewrite Forall_forall in Hrows.
      pose proof (Hrows r' (nth_error_In _ _ Hr')) as Hlr'.
      pose proof (Hw r (nth_error_In _ _ Hr)) as Hlr. apply Nat.eqb_eq in Hlr.
      apply Forall2_pointwise; [congruence |].
      intros j c z Hc Hz.
      assert (Hj : (j < n)%nat) by (rewrite <- Hlr; apply nth_error_Some; congruence).
      assert (Hcell : cell a i j = Some c) by (simpl; now rewrite Hr).
      specialize (Hget i j). unfold get2 in Hget at 1. rewrite Hr', Hz in Hget.
      rewrite (get2_zeros n n i j Hi Hj) in Hget.
      destruct (existsb (at_position i j) (active_cells a n n 1)) eqn:Hact.
      + apply existsb_at_position in Hact.
        apply (in_active_cells n n rows 1 i j Hwf) in Hact as [c' [Hc' Heq]].
        fold a in Hc'. injection Hget as ->. congruence.
      + assert (Hne : np_eq_int c 1 = false).
        { destruct (np_eq_int c 1) eqn:E; [| reflexivity].
          assert (In (i, j) (active_cells a n n 1))
            by (apply (in_active_cells n n rows 1 i j Hwf); eauto).
          apply existsb_at_position in H. congruence. }
        unfold is_binary in Hbin. rewrite forallb_forall in Hbin.
        specialize (Hbin c (cell_in_elements n n rows i j c Hcell)).
        rewrite Hne, orb_false_r in Hbin. injection Hget as ->. exact Hbin. }
  split; [exact Hsame |].
  intros m Hm. subst rows. symmetry. now apply same_matrix_int_rows.
Qed.

Lemma adjacency_round_trip_witness :
  exists edge_index,
    convert_adj_to_edge_index (PyArray (Nd2 2 2 adjacency_2x2)) = Ok edge_index
    /\ same_matrix adjacency_2x2 (rebuild_adjacency 2 edge_index)
    /\ forall m, adjacency_2x2 = int_rows m -> rebuild_adjacency 2 edge_index = m.
Proof.
  apply (adjacency_round_trip 2 adjacency_2x2); reflexivity.
Defined.

(** ** Degree statistics on the triangle *)

(** C5: for the edges (0,1), (1,2), (2,0) the node count is 3, both degree
    arrays are [1,1,1] and the histogram of out-degrees is [0,3]. *)
Theorem triangle_degree_statistics (dataset_name : string) :
  get_num_nodes_from_edge_index triangle = Ok 3%nat
  /\ plot_in_out_degree_distributions (PyArray triangle) dataset_name
     = Ok {| plot_in_degrees := [1; 1; 1]%Z;
             plot_out_degrees := [1; 1; 1]%Z;
             plot_hist := [0; 3]%Z;
             plot_hist_title :=
               ("Node out degree distribution for " ++ dataset_name ++ " dataset")%string |}.
Proof.
  split; reflexivity.
Qed.

(** ** Square inputs are taken for adjacency matrices *)

(** C9: both functions send every array whose two dimensions are equal
    through the converter; the edge index of the two edges (0,1), (1,2), of
    shape (2, 2), is read as an adjacency matrix and the edges (0,1), (1,0)
    are used instead. *)
Theorem square_input_is_converted
    (ig : igraph_api) (url : string) (n : nat) (rows : list (list npscalar))
    (node_labels : list Z) (dataset_name : string) (tool : GraphVisualizationTool) :
  plot_in_out_degree_distributions (PyArray (Nd2 n n rows)) dataset_name
  = (edge_index <- convert_adj_to_edge_index (PyArray (Nd2 n n rows)) ;;
     degree_distributions edge_index dataset_name)
  /\ visualize_graph ig url (PyArray (Nd2 n n rows)) node_labels dataset_name tool
     = (edge_index <- convert_adj_to_edge_index (PyArray (Nd2 n n rows)) ;;
        draw_edge_index ig url edge_index node_labels dataset_name tool)
  /\ convert_adj_to_edge_index (PyArray two_edges) = Ok (edge_index_of [(0, 1); (1, 0)]%Z)
  /\ plot_in_out_degree_distributions (PyArray two_edges) dataset_name
     = degree_distributions (edge_index_of [(0, 1); (1, 0)]%Z) dataset_name
  /\ plot_in_out_degree_distributions (PyArray two_edges) dataset_name
     <> degree_distributions two_edges dataset_name
  /\ visualize_graph ig url (PyArray two_edges) node_labels dataset_name NETWORKX
     = Ok (NetworkxDrawing [(NpInt 0, NpInt 1); (NpInt 1, NpInt 0)])
  /\ draw_edge_index ig url two_edges node_labels dataset_name NETWORKX
     = Ok (NetworkxDrawing [(NpInt 0, NpInt 1); (NpInt 1, NpInt 2)]).
Proof.
  assert (Hinput : edge_index_of_input (Nd2 n n rows)
                   = convert_adj_to_edge_index (PyArray (Nd2 n n rows))).
  { unfold edge_index_of_input, shape_at. cbn [shape nth_error bind].
    now rewrite Nat.eqb_refl. }
  repeat split.
  - unfold plot_in_out_degree_distributions. now rewrite Hinput.
  - unfold visualize_graph. now rewrite Hinput.
  - cbv. discriminate.
Qed.

(** ** The dispatcher on an unsupported tool *)

(** C7: with a tool other than NETWORKX and IGRAPH the call never returns a
    drawing, and once the edge index has been read the exception raised is
    the explicit one, whose message names the tool. *)
Theorem unsupported_tool_raises
    (ig : igraph_api) (url : string) (a edge_index : ndarray)
    (num_of_nodes : nat) (edge_index_tuples : list (npscalar * npscalar))
    (node_labels : list Z) (dataset_name name : string)
    (Hinput : edge_index_of_input a = Ok edge_index)
    (Hedges : nodes_and_edge_tuples edge_index = Ok (num_of_nodes, edge_index_tuples)) :
  visualize_graph ig url (PyArray a) node_labels dataset_name (OTHER_TOOL name)
  = Raise (Exception ("Visualization tool " ++ name ++ " not supported.")%string)
  /\ forall x, exists e,
       visualize_graph ig url x node_labels dataset_name (OTHER_TOOL name) = Raise e.
Proof.
  split.
  - unfold visualize_graph, draw_edge_index. rewrite Hinput. cbn [bind].
    rewrite Hedges. reflexivity.
  - intros [b | cls]; [| eexists; reflexivity].
    unfold visualize_graph, draw_edge_index.
    destruct (edge_index_of_input b) as [ei | e]; cbn [bind]; [| eauto].
    destruct (nodes_and_edge_tuples ei) as [[k t] | e]; cbn [bind dispatch_tool];
      eexists; reflexivity.
Qed.

Lemma unsupported_tool_raises_witness :
  visualize_graph sample_igraph "url" (PyArray triangle) [0; 1; 2]%Z "cora"
    (OTHER_TOOL "GRAPHVIZ")
  = Raise (Exception "Visualization tool GRAPHVIZ not supported.").
Proof.
  apply (unsupported_tool_raises sample_igraph "url" triangle triangle 3
           [(NpInt 0, NpInt 1); (NpInt 1, NpInt 2); (NpInt 2, NpInt 0)]);
    reflexivity.
Defined.

(** ** The Cora color map *)

Lemma lookup_color_valid (label : Z) :
  valid_label label -> exists c, lookup_color label = Ok c /\ In (label, c) label_to_color_map.
Proof.
  unfold valid_label. intros H.
  assert (Hcases : (label = 0 \/ label = 1 \/ label = 2 \/ label = 3
                    \/ label = 4 \/ label = 5 \/ label = 6)%Z) by lia.
  repeat (destruct Hcases as [-> | Hcases]; [eexists; split; [reflexivity | simpl; tauto] |]).
  subst label. eexists; split; [reflexivity | simpl; tauto].
Qed.

Lemma lookup_color_invalid (label : Z) :
  ~ valid_label label -> lookup_color label = Raise (KeyError label).
Proof.
  unfold valid_label, lookup_color, label_to_color_map. intros H. cbn [find fst].
  repeat (match goal with
          | |- context [(?k =? label)%Z] => destruct (Z.eqb_spec k label); [lia |]
          end).
  reflexivity.
Qed.

Lemma vertex_colors_valid (node_labels : list Z) :
  Forall valid_label node_labels ->
  exists colors,
    vertex_colors node_labels = Ok colors
    /\ Forall2 (fun label c => In (label, c) label_to_color_map) node_labels colors.
Proof.
  induction 1 as [| label rest Hl Hrest [colors [Hcs Hall]]]; simpl.
  - exists []. split; [reflexivity | constructor].
  - destruct (lookup_color_valid label Hl) as [c [Hc Hin]].
    rewrite Hc, Hcs. exists (c :: colors). split; [reflexivity | now constructor].
Qed.

Lemma vertex_colors_invalid (before : list Z) (bad : Z) (rest : list Z) :
  Forall valid_label before -> ~ valid_label bad ->
  vertex_colors (before ++ bad :: rest) = Raise (KeyError bad).
Proof.
  intros Hbefore Hbad. induction Hbefore as [| label before Hl Hbefore IH]; simpl.
  - now rewrite (lookup_color_invalid bad Hbad).
  - destruct (lookup_color_valid label Hl) as [c [Hc _]]. now rewrite Hc, IH.
Qed.

Lemma edge_weights_defined (betweenness : list R) :
  betweenness <> [] -> exists ws, edge_weights betweenness = Ok ws.
Proof.
  destruct betweenness as [| b bs]; [contradiction |]. intros _.
  unfold edge_weights, edge_weights_raw_normalized, edge_weights_raw.
  cbn [map np_max bind]. eexists. reflexivity.
Qed.

(** C10: in the igraph branch, with the graph built and its edge widths
    computed.  For the dataset name "cora" in any letter case, labels all in
    0..6 give the colors of the map, and the first label outside 0..6 ends the
    call with the failed lookup of that label; for another dataset name the
    labels play no part and no vertex color is set. *)
Theorem cora_labels_index_color_map
    (ig : igraph_api) (url : string) (a edge_index : ndarray)
    (num_of_nodes : nat) (edge_index_tuples : list (npscalar * npscalar))
    (g : ig_graph ig) (node_labels : list Z) (dataset_name : string)
    (Hinput : edge_index_of_input a = Ok edge_index)
    (Hedges : nodes_and_edge_tuples edge_index = Ok (num_of_nodes, edge_index_tuples))
    (Hbuild : build_igraph ig num_of_nodes edge_index_tuples = Ok g)
    (Hbetweenness : ig_edge_betweenness ig g <> []) :
  (lower dataset_name = "cora"%string ->
     (Forall valid_label node_labels ->
        exists style printed colors,
          visualize_graph ig url (PyArray a) node_labels dataset_name IGRAPH
          = Ok (IgraphPlot g style printed)
          /\ vs_vertex_color style = Some colors
          /\ Forall2 (fun label c => In (label, c) label_to_color_map) node_labels colors)
     /\ (forall before bad rest,
           node_labels = before ++ bad :: rest ->
           Forall valid_label before -> ~ valid_label bad ->
           visualize_graph ig url (PyArray a) node_labels dataset_name IGRAPH
           = Raise (KeyError bad)))
  /\ (lower dataset_name <> "cora"%string ->
      (forall other_labels,
         visualize_graph ig url (PyArray a) other_labels dataset_name IGRAPH
         = visualize_graph ig url (PyArray a) node_labels dataset_name IGRAPH)
      /\ exists style printed,
           visualize_graph ig url (PyArray a) node_labels dataset_name IGRAPH
           = Ok (IgraphPlot g style printed)
           /\ vs_vertex_color style = None).
Proof.
  destruct (edge_weights_defined _ Hbetweenness) as [ws Hws].
  assert (Hcall : forall labels,
            visualize_graph ig url (PyArray a) labels dataset_name IGRAPH
            = ('(vertex_color, printed) <- cora_vertex_colors dataset_name labels ;;
               Ok (IgraphPlot g
                     {| vs_bbox := (3000, 3000)%Z;
                        vs_margin := 35%Z;
                        vs_edge_width := ws;
                        vs_vertex_size := map (fun deg => (IZR deg / 2)%R) (ig_degree ig g);
                        vs_vertex_color := vertex_color;
                        vs_layout := ig_layout_kamada_kawai ig g |}
                     (printed ++ closing_msgs url)))).
  { intros labels. unfold visualize_graph, draw_edge_index. rewrite Hinput. cbn [bind].
    rewrite Hedges. cbn [bind dispatch_tool]. unfold igraph_branch.
    rewrite Hbuild. cbn [bind]. rewrite Hws. reflexivity. }
  split; intros Hname.
  - assert (Hcora : forall labels, cora_vertex_colors dataset_name labels
                      = (colors <- vertex_colors labels ;; Ok (Some colors, []))).
    { intros labels. unfold cora_vertex_colors. rewrite Hname. reflexivity. }
    split.
    + intros Hvalid. destruct (vertex_colors_valid node_labels Hvalid) as [colors [Hcs Hall]].
      rewrite Hcall, Hcora, Hcs. cbn [bind].
      eexists _, _, colors. split; [reflexivity |]. split; [reflexivity | exact Hall].
    + intros before bad rest -> Hbefore Hbad.
      rewrite Hcall, Hcora, (vertex_colors_invalid before bad rest Hbefore Hbad).
      reflexivity.
  - assert (Hother : forall labels, cora_vertex_colors dataset_name labels
                       = Ok (None, [default_coloring_msg])).
    { intros labels. unfold cora_vertex_colors.
      destruct (String.eqb_spec (lower dataset_name) (lower DatasetType_CORA_name)) as [E |];
        [| reflexivity].
      now apply Hname in E. }
    split.
    + intros other_labels. now rewrite !Hcall, !Hother.
    + rewrite Hcall, Hother. cbn [bind]. eexists _, _. split; reflexivity.
Qed.

Lemma cora_labels_index_color_map_witness :
  visualize_graph sample_igraph "url" (PyArray triangle) [0; 7; 2]%Z "Cora" IGRAPH
  = Raise (KeyError 7).
Proof.
  refine (proj2 (proj1 (cora_labels_index_color_map sample_igraph "url" triangle triangle 3
             [(NpInt 0, NpInt 1); (NpInt 1, NpInt 2); (NpInt 2, NpInt 0)]
             (3%nat, [(NpInt 0, NpInt 1); (NpInt 1, NpInt 2); (NpInt 2, NpInt 0)])
             [0; 7; 2]%Z "Cora" eq_refl eq_refl eq_refl _) eq_refl)
            [0%Z] 7%Z [2%Z] eq_refl _ _).
  - discriminate.
  - repeat constructor; unfold valid_label; lia.
  - unfold valid_label. lia.
Defined.

(** ** The normalized edge weights *)

Local Open Scope R_scope.

Lemma clip_log_nonneg (b : R) :
  0 <= b -> np_clip_min0 (np_log b) = Fin (clipped_log b).
Proof.
  intros Hb. unfold np_log, clipped_log.
  destruct (Rlt_dec 0 b) as [Hpos | Hnpos]; simpl.
  - destruct (Rlt_dec (ln b) 0); reflexivity.
  - destruct (Req_dec_T b 0) as [_ | Hne]; [reflexivity | lra].
Qed.

Lemma clipped_log_nonneg (b : R) : 0 <= clipped_log b.
Proof.
  unfold clipped_log.
  destruct (Rlt_dec 0 b); [| lra]. destruct (Rlt_dec (ln b) 0); lra.
Qed.

Lemma clipped_log_pos (b : R) : 1 < b -> 0 < clipped_log b.
Proof.
  intros Hb. unfold clipped_log.
  assert (Hln : 0 < ln b) by (rewrite <- ln_1; apply ln_increasing; lra).
  destruct (Rlt_dec 0 b); [| lra]. destruct (Rlt_dec (ln b) 0); lra.
Qed.

Lemma edge_weights_raw_nonneg (betweenness : list R) :
  Forall (fun b => 0 <= b) betweenness ->
  edge_weights_raw betweenness = map Fin (map clipped_log betweenness).
Proof.
  unfold edge_weights_raw. induction 1 as [| b bs Hb Hbs IH]; simpl; [reflexivity |].
  now rewrite (clip_log_nonneg b Hb), IH.
Qed.

Lemma fold_maximum_fin (rs : list R) (r : R) :
  fold_left np_maximum (map Fin rs) (Fin r) = Fin (fold_left Rmax rs r).
Proof.
  revert r. induction rs as [| x rs IH]; intros r; simpl; [reflexivity | apply IH].
Qed.

Lemma np_max_fin (r : R) (rs : list R) :
  np_max (map Fin (r :: rs)) = Ok (Fin (fold_left Rmax rs r)).
Proof.
  cbn [map np_max]. now rewrite fold_maximum_fin.
Qed.

Lemma fold_Rmax_ge_init (rs : list R) (r : R) : r <= fold_left Rmax rs r.
Proof.
  revert r. induction rs as [| x rs IH]; intros r; simpl; [lra |].
  eapply Rle_trans; [apply (Rmax_l r x) | apply IH].
Qed.

Lemma fold_Rmax_ge (rs : list R) (r x : R) : In x rs -> x <= fold_left Rmax rs r.
Proof.
  revert r. induction rs as [| y rs IH]; intros r Hin; simpl; [contradiction |].
  destruct Hin as [-> | Hin].
  - eapply Rle_trans; [apply (Rmax_r r x) | apply fold_Rmax_ge_init].
  - now apply IH.
Qed.

Lemma fold_Rmax_scaled (rs : list R) (r m : R) :
  0 < m ->
  fold_left Rmax (map (fun x => x / m) rs) (r / m) = fold_left Rmax rs r / m.
Proof.
  intros Hm. revert r. induction rs as [| x rs IH]; intros r; simpl; [reflexivity |].
  rewrite <- IH. f_equal. unfold Rdiv.
  rewrite (Rmult_comm r), (Rmult_comm x), (Rmult_comm (Rmax r x)).
  apply RmaxRmult. left. now apply Rinv_0_lt_compat.
Qed.

Lemma np_div_fin (m : R) (rs : list R) :
  m <> 0 ->
  map (fun x => np_div x (Fin m)) (map Fin rs) = map Fin (map (fun x => x / m) rs).
Proof.
  intros Hm. induction rs as [| x rs IH]; simpl; [reflexivity |].
  rewrite IH. destruct (Req_dec_T m 0); [contradiction | reflexivity].
Qed.

(** C8, at a single edge of betweenness 1: the betweenness is positive, its
    logarithm is 0, the division is 0/0 and the only normalized weight is
    NaN, not 1.  The comment on line 123 promises that the thickest edge is
    1; the division of line 127 is not guarded against a maximum of 0. *)
Lemma single_edge_normalized_weight_is_nan :
  Exists (fun b => 0 < b) [1]
  /\ edge_weights_raw_normalized [1] = Ok [NaN]
  /\ max_normalized_weight [1] = Ok NaN
  /\ max_normalized_weight [1] <> Ok (Fin 1).
Proof.
  assert (Hnorm : edge_weights_raw_normalized [1] = Ok [NaN]).
  { unfold edge_weights_raw_normalized, edge_weights_raw, np_log. simpl.
    destruct (Rlt_dec 0 1) as [_ | H]; [| lra]. simpl. rewrite ln_1.
    destruct (Rlt_dec 0 0) as [H | _]; [lra |]. simpl.
    destruct (Req_dec_T 0 0) as [_ | H]; [reflexivity | contradiction]. }
  assert (Hmax : max_normalized_weight [1] = Ok NaN).
  { unfold max_normalized_weight. rewrite Hnorm. reflexivity. }
  repeat split; try assumption.
  - constructor. lra.
  - rewrite Hmax. discriminate.
Qed.

(** Where the normalization does what line 123 says: when the betweenness
    values are non-negative and one of them exceeds 1, the normalized weights
    are defined and their maximum is exactly 1. *)
Theorem normalized_weights_max_is_one
    (betweenness : list R)
    (Hnonneg : Forall (fun b => 0 <= b) betweenness)
    (Habove : Exists (fun b => 1 < b) betweenness) :
  max_normalized_weight betweenness = Ok (Fin 1).
Proof.
  unfold max_normalized_weight, edge_weights_raw_normalized.
  rewrite (edge_weights_raw_nonneg betweenness Hnonneg).
  destruct betweenness as [| b bs]; [inversion Habove |].
  change (map clipped_log (b :: bs)) with (clipped_log b :: map clipped_log bs).
  rewrite np_max_fin. cbn [bind].
  set (m := fold_left Rmax (map clipped_log bs) (clipped_log b)).
  assert (Hm : 0 < m).
  { apply Exists_exists in Habove as [x [Hin Hx]].
    apply Rlt_le_trans with (clipped_log x); [now apply clipped_log_pos |].
    destruct Hin as [<- | Hin]; [apply fold_Rmax_ge_init |].
    apply fold_Rmax_ge. now apply in_map. }
  rewrite np_div_fin by lra.
  change (map (fun x => x / m) (clipped_log b :: map clipped_log bs))
    with (clipped_log b / m :: map (fun x => x / m) (map clipped_log bs)).
  rewrite np_max_fin, (fold_Rmax_scaled _ _ m Hm).
  fold m. do 2 f_equal. field. lra.
Qed.

Lemma normalized_weights_max_is_one_witness :
  max_normalized_weight [1 / 2; 3; 2] = Ok (Fin 1).
Proof.
  apply normalized_weights_max_is_one.
  - repeat constructor; lra.
  - apply Exists_cons_tl, Exists_cons_hd. lra.
Defined.

Local Close Scope R_scope.

(** ** The size of the degree arrays *)


Lemma existsb_np_eq_int (x : Z) (D : list Z) :
  existsb (np_eq (NpInt x)) (map NpInt D) = true <-> In x D.
Proof.
  rewrite existsb_exists. split.
  - intros [y [Hy Heq]]. apply in_map_iff in Hy as [z [<- Hz]].
    simpl in Heq. apply Z.eqb_eq in Heq. now subst.
  - intros Hin. exists (NpInt x). split; [now apply in_map | apply Z.eqb_refl].
Qed.

(** Adding integer cells to a set of integers without repetition gives such
    a set again, with the members of both. *)
Lemma py_set_add_ints (l D : list Z) :
  NoDup D ->
  exists D', fold_left py_set_add (map NpInt l) (map NpInt D) = map NpInt D'
             /\ NoDup D' /\ forall z, In z D' <-> In z D \/ In z l.
Proof.
  revert D. induction l as [| x l IH]; intros D HD; simpl.
  - exists D. repeat split; auto. intros [H | []]; exact H.
  - unfold py_set_add at 2.
    destruct (existsb (np_eq (NpInt x)) (map NpInt D)) eqn:E.
    + apply existsb_np_eq_int in E.
      destruct (IH D HD) as [D' [Heq [Hnd Hin]]].
      exists D'. repeat split; auto.
      * intros Hz. apply Hin in Hz. tauto.
      * intros [Hz | [<- | Hz]]; apply Hin; auto.
    + assert (Hx : ~ In x D).
      { intros Hx. apply existsb_np_eq_int in Hx. congruence. }
      change [NpInt x] with (map NpInt [x]). rewrite <- map_app.
      destruct (IH (D ++ [x])) as [D' [Heq [Hnd Hin]]].
      * apply NoDup_app; [assumption | repeat constructor; simpl; tauto |].
        intros z Hz [<- | []]. contradiction.
      * exists D'. repeat split; auto.
        -- intros Hz. apply Hin in Hz. rewrite in_app_iff in Hz. simpl in Hz. tauto.
        -- intros Hz. apply Hin. rewrite in_app_iff. simpl. tauto.
Qed.

(** The node count is the number of distinct ids. *)
Lemma num_nodes_counts_distinct_ids (pairs : list (Z * Z)) :
  exists D,
    get_num_nodes_from_edge_index (edge_index_of pairs) = Ok (length D)
    /\ NoDup D /\ forall z, In z D <-> In z (edge_ids pairs).
Proof.
  unfold get_num_nodes_from_edge_index, edge_index_of. cbn [iter_getitem nth_error bind].
  unfold py_set, py_set_union.
  replace (map (fun p : Z * Z => NpInt (fst p)) pairs) with (map NpInt (map fst pairs))
    by now rewrite map_map.
  replace (map (fun p : Z * Z => NpInt (snd p)) pairs) with (map NpInt (map snd pairs))
    by now rewrite map_map.
  destruct (py_set_add_ints (map fst pairs) [] (NoDup_nil _)) as [D1 [H1 [Hnd1 Hin1]]].
  destruct (py_set_add_ints (map snd pairs) [] (NoDup_nil _)) as [D2 [H2 [Hnd2 Hin2]]].
  cbn [map] in H1, H2. rewrite H1, H2.
  destruct (py_set_add_ints D2 D1 Hnd1) as [D [H [Hnd Hin]]].
  rewrite H. exists D. rewrite length_map. repeat split; auto.
  - intros Hz. apply Hin in Hz. unfold edge_ids. rewrite in_app_iff.
    destruct Hz as [Hz | Hz]; [apply Hin1 in Hz | apply Hin2 in Hz]; simpl in Hz; tauto.
  - intros Hz. apply Hin. unfold edge_ids in Hz. rewrite in_app_iff in Hz.
    destruct Hz as [Hz | Hz]; [left; apply Hin1 | right; apply Hin2]; now right.
Qed.

Lemma max_id_ge_init (ids : list Z) (m : Z) : (m <= fold_left Z.max ids m)%Z.
Proof.
  revert m. induction ids as [| x ids IH]; intros m; simpl; [lia |].
  specialize (IH (Z.max m x)). lia.
Qed.

Lemma max_id_ge (ids : list Z) (m id : Z) : In id ids -> (id <= fold_left Z.max ids m)%Z.
Proof.
  revert m. induction ids as [| x ids IH]; intros m Hin; simpl; [contradiction |].
  destruct Hin as [-> | Hin]; [| now apply IH].
  pose proof (max_id_ge_init ids (Z.max m id)). lia.
Qed.

Lemma max_id_attained (ids : list Z) (m : Z) :
  fold_left Z.max ids m = m \/ In (fold_left Z.max ids m) ids.
Proof.
  revert m. induction ids as [| x ids IH]; intros m; simpl; [now left |].
  destruct (IH (Z.max m x)) as [H | H]; [| now right; right].
  rewrite H. destruct (Z.max_spec m x) as [[_ ->] | [_ ->]]; [right; now left | now left].
Qed.

Lemma NoDup_below (k : nat) : NoDup (map Z.of_nat (seq 0 k)).
Proof.
  apply Finite.Injective_map_NoDup; [| apply seq_NoDup].
  intros x y. apply Nat2Z.inj.
Qed.

Lemma in_below (k : nat) (z : Z) : In z (map Z.of_nat (seq 0 k)) <-> (0 <= z < Z.of_nat k)%Z.
Proof.
  rewrite in_map_iff. split.
  - intros [i [<- Hi]]. apply in_seq in Hi. lia.
  - intros Hz. exists (Z.to_nat z). split; [lia | apply in_seq; lia].
Qed.

(** A set of dense ids without repetition has one member more than its
    largest. *)
Lemma dense_count (ids D : list Z) :
  dense_ids ids -> NoDup D -> (forall z, In z D <-> In z ids) ->
  Z.of_nat (length D) = (max_id ids + 1)%Z.
Proof.
  intros Hdense Hnd Hin. unfold max_id.
  assert (Hupper : (Z.of_nat (length D) <= fold_left Z.max ids (-1) + 1)%Z).
  { pose proof (max_id_ge_init ids (-1)%Z) as Hge.
    assert (Hincl : incl D (map Z.of_nat (seq 0 (Z.to_nat (fold_left Z.max ids (-1) + 1)%Z)))).
    { intros z Hz. apply Hin in Hz. apply in_below.
      pose proof (max_id_ge ids (-1)%Z z Hz). destruct (Hdense z Hz) as [H0 _]. lia. }
    apply (NoDup_incl_length Hnd) in Hincl. rewrite length_map, length_seq in Hincl. lia. }
  assert (Hlower : (fold_left Z.max ids (-1) + 1 <= Z.of_nat (length D))%Z).
  { destruct (max_id_attained ids (-1)%Z) as [-> | Hmax]; [lia |].
    destruct (Hdense _ Hmax) as [H0 Hdown].
    assert (Hincl : incl (map Z.of_nat (seq 0 (Z.to_nat (fold_left Z.max ids (-1) + 1)%Z))) D).
    { intros z Hz. apply in_below in Hz. apply Hin, Hdown. lia. }
    apply (NoDup_incl_length (NoDup_below _)) in Hincl.
    rewrite length_map, length_seq in Hincl. lia. }
  lia.
Qed.

Lemma length_add_one_at (k : nat) (arr : list Z) : length (add_one_at k arr) = length arr.
Proof.
  revert k. induction arr as [| x arr IH]; intros [| k]; simpl; auto.
Qed.







(** * Further properties of the degree statistics *)

(** ** The loop over the columns is a loop over the edges *)

Lemma getitem2_edge_index_of_app (pre : list (Z * Z)) (p : Z * Z) (l : list (Z * Z)) :
  getitem2 (edge_index_of (pre ++ p :: l)) 0 (length pre) = Ok (NpInt (fst p))
  /\ getitem2 (edge_index_of (pre ++ p :: l)) 1 (length pre) = Ok (NpInt (snd p)).
Proof.
  unfold edge_index_of, getitem2. cbn [nth_error].
  rewrite !nth_error_map, nth_error_app2 by lia.
  rewrite Nat.sub_diag. split; reflexivity.
Qed.

Lemma count_loop_from (l pre : list (Z * Z)) (st : list Z * list Z) :
  for_each (seq (length pre) (length l))
    (fun cnt degrees =>
       let '(in_degrees, out_degrees) := degrees in
       source_node_id <- getitem2 (edge_index_of (pre ++ l)) 0 cnt ;;
       target_node_id <- getitem2 (edge_index_of (pre ++ l)) 1 cnt ;;
       out_degrees' <- increment_at out_degrees source_node_id ;;
       in_degrees' <- increment_at in_degrees target_node_id ;;
       Ok (in_degrees', out_degrees')) st
  = for_each l count_edge st.
Proof.
  revert pre st. induction l as [| p l IH]; intros pre st; [reflexivity |].
  cbn [length seq for_each].
  destruct (getitem2_edge_index_of_app pre p l) as [Hs Ht].
  destruct st as [ins outs]. rewrite Hs, Ht. cbn [bind].
  change (count_edge p (ins, outs))
    with (out_degrees' <- increment_at outs (NpInt (fst p)) ;;
          in_degrees' <- increment_at ins (NpInt (snd p)) ;;
          Ok (in_degrees', out_degrees')).
  destruct (increment_at outs (NpInt (fst p))) as [outs' | e]; cbn [bind]; [| reflexivity].
  destruct (increment_at ins (NpInt (snd p))) as [ins' | e]; cbn [bind]; [| reflexivity].
  specialize (IH (pre ++ [p]) (ins', outs')).
  rewrite <- app_assoc, length_app in IH. cbn [app length] in IH.
  rewrite Nat.add_1_r in IH. exact IH.
Qed.

Lemma count_in_out_degrees_pairs (pairs : list (Z * Z)) (n : nat) :
  count_in_out_degrees (edge_index_of pairs) n
  = for_each pairs count_edge (np_zeros n, np_zeros n).
Proof.
  unfold count_in_out_degrees, shape_at.
  cbn [edge_index_of shape nth_error bind]. fold (edge_index_of pairs).
  exact (count_loop_from pairs [] (np_zeros n, np_zeros n)).
Qed.

(** ** What one increment does *)

Lemma norm_index_lt (n : nat) (i : Z) (k : nat) :
  norm_index n i = Some k -> (k < n)%nat.
Proof.
  unfold norm_index.
  destruct ((0 <=? i)%Z && (i <? Z.of_nat n)%Z) eqn:E1.
  - apply andb_true_iff in E1 as [H1 H2]. apply Z.leb_le in H1. apply Z.ltb_lt in H2.
    intros [= <-]. lia.
  - destruct ((- Z.of_nat n <=? i)%Z && (i <? 0)%Z) eqn:E2; [| discriminate].
    apply andb_true_iff in E2 as [H1 H2]. apply Z.leb_le in H1. apply Z.ltb_lt in H2.
    intros [= <-]. lia.
Qed.

Lemma norm_index_nonneg (n : nat) (i : Z) :
  (0 <= i < Z.of_nat n)%Z -> norm_index n i = Some (Z.to_nat i).
Proof.
  intros Hi. unfold norm_index.
  replace (0 <=? i)%Z with true by (symmetry; apply Z.leb_le; lia).
  replace (i <? Z.of_nat n)%Z with true by (symmetry; apply Z.ltb_lt; lia).
  reflexivity.
Qed.

Lemma nth_add_one_at (k v : nat) (arr : list Z) :
  (k < length arr)%nat ->
  nth v (add_one_at k arr) 0%Z = (nth v arr 0 + (if (k =? v)%nat then 1 else 0))%Z.
Proof.
  revert k v. induction arr as [| x arr IH]; intros k v Hk; simpl in Hk; [lia |].
  destruct k as [| k], v as [| v]; simpl; try lia.
  apply IH. lia.
Qed.

Lemma sum_add_one_at (k : nat) (arr : list Z) :
  (k < length arr)%nat -> sum_list (add_one_at k arr) = (sum_list arr + 1)%Z.
Proof.
  revert k. induction arr as [| x arr IH]; intros k Hk; simpl in Hk; [lia |].
  destruct k as [| k]; simpl; [lia |].
  rewrite IH by lia. lia.
Qed.

Lemma increment_at_cases (arr : list Z) (id : Z) :
  match norm_index (length arr) id with
  | Some k =>
      increment_at arr (NpInt id) = Ok (add_one_at k arr) /\ (k < length arr)%nat
  | None => increment_at arr (NpInt id) = Raise IndexError
  end.
Proof.
  unfold increment_at. cbn [as_index].
  destruct (norm_index (length arr) id) as [k |] eqn:E; [| reflexivity].
  split; [reflexivity | exact (norm_index_lt _ _ _ E)].
Qed.

Lemma count_id_cons (x : Z) (ids : list Z) (v : Z) :
  count_id (x :: ids) v = (count_id ids v + (if (x =? v)%Z then 1 else 0))%Z.
Proof.
  unfold count_id. cbn [count_occ].
  destruct (Z.eq_dec x v) as [-> | Hne].
  - rewrite Z.eqb_refl. lia.
  - apply Z.eqb_neq in Hne. rewrite Hne. lia.
Qed.

(** ** The degree of a node is the number of its edges *)

(** The loop over the edges, from any pair of arrays of [n] counters: with
    ids in [0, n) it returns, each out-degree has grown by the number of
    edges leaving the node and each in-degree by the number entering it. *)
Lemma count_edges_counts (n : nat) (l : list (Z * Z)) (ins outs : list Z) :
  length ins = n -> length outs = n ->
  (forall id, In id (edge_ids l) -> (0 <= id < Z.of_nat n)%Z) ->
  exists ins' outs',
    for_each l count_edge (ins, outs) = Ok (ins', outs')
    /\ length ins' = n /\ length outs' = n
    /\ forall v,
         nth v outs' 0%Z = (nth v outs 0 + count_id (map fst l) (Z.of_nat v))%Z
         /\ nth v ins' 0%Z = (nth v ins 0 + count_id (map snd l) (Z.of_nat v))%Z.
Proof.
  revert ins outs. induction l as [| [s t] l IH]; intros ins outs Hins Houts Hids.
  - exists ins, outs. cbn. repeat split; auto; unfold count_id; simpl; lia.
  - assert (Hs : (0 <= s < Z.of_nat n)%Z).
    { apply Hids. unfold edge_ids. simpl. now left. }
    assert (Ht : (0 <= t < Z.of_nat n)%Z).
    { apply Hids. unfold edge_ids. apply in_or_app. right. simpl. now left. }
    cbn [for_each]. unfold count_edge at 1. cbn [fst snd].
    pose proof (increment_at_cases outs s) as Ho.
    rewrite Houts, (norm_index_nonneg n s Hs) in Ho. destruct Ho as [Ho Hko].
    pose proof (increment_at_cases ins t) as Hi.
    rewrite Hins, (norm_index_nonneg n t Ht) in Hi. destruct Hi as [Hi Hki].
    rewrite Ho. cbn [bind]. rewrite Hi. cbn [bind].
    destruct (IH (add_one_at (Z.to_nat t) ins) (add_one_at (Z.to_nat s) outs))
      as [ins' [outs' [Hrun [Hli [Hlo Hcount]]]]].
    + now rewrite length_add_one_at.
    + now rewrite length_add_one_at.
    + intros id Hid. apply Hids. unfold edge_ids in *.
      rewrite in_app_iff in Hid. cbn [map fst snd]. rewrite in_app_iff. simpl. tauto.
    + exists ins', outs'. repeat split; auto.
      * destruct (Hcount v) as [Hv _]. rewrite <- Houts in Hko.
        rewrite Hv, (nth_add_one_at _ _ _ Hko).
        cbn [map fst]. rewrite count_id_cons.
        destruct (Nat.eqb_spec (Z.to_nat s) v) as [E | E];
          destruct (Z.eqb_spec s (Z.of_nat v)) as [E' | E']; lia.
      * destruct (Hcount v) as [_ Hv]. rewrite <- Hins in Hki.
        rewrite Hv, (nth_add_one_at _ _ _ Hki).
        cbn [map snd]. rewrite count_id_cons.
        destruct (Nat.eqb_spec (Z.to_nat t) v) as [E | E];
          destruct (Z.eqb_spec t (Z.of_nat v)) as [E' | E']; lia.
Qed.

Lemma nth_np_zeros (n v : nat) : nth v (np_zeros n) 0%Z = 0%Z.
Proof.
  unfold np_zeros. destruct (Nat.lt_ge_cases v n) as [H | H].
  - apply nth_repeat_lt. exact H.
  - apply nth_overflow. now rewrite repeat_length.
Qed.

(** X1: on an edge index whose ids lie in [0, num_of_nodes), the pass over
    the edges returns two arrays of [num_of_nodes] counters; the out-degree
    of a node is the number of edges with that source and its in-degree the
    number of edges with that target. *)
Theorem degrees_count_incident_edges
    (pairs : list (Z * Z)) (num_of_nodes : nat)
    (Hids : forall id, In id (edge_ids pairs) -> (0 <= id < Z.of_nat num_of_nodes)%Z) :
  exists in_degrees out_degrees,
    count_in_out_degrees (edge_index_of pairs) num_of_nodes
    = Ok (in_degrees, out_degrees)
    /\ length in_degrees = num_of_nodes
    /\ length out_degrees = num_of_nodes
    /\ forall v,
         nth v out_degrees 0%Z = count_id (map fst pairs) (Z.of_nat v)
         /\ nth v in_degrees 0%Z = count_id (map snd pairs) (Z.of_nat v).
Proof.
  rewrite count_in_out_degrees_pairs.
  destruct (count_edges_counts num_of_nodes pairs (np_zeros num_of_nodes)
              (np_zeros num_of_nodes)) as [ins [outs [Hrun [Hli [Hlo Hcount]]]]];
    try apply repeat_length; try assumption.
  exists ins, outs. repeat split; auto.
  - destruct (Hcount v) as [Hv _]. rewrite Hv, nth_np_zeros. lia.
  - destruct (Hcount v) as [_ Hv]. rewrite Hv, nth_np_zeros. lia.
Qed.

Lemma degrees_count_incident_edges_witness :
  exists in_degrees out_degrees,
    count_in_out_degrees (edge_index_of [(0, 1); (0, 2); (2, 1)]%Z) 3
    = Ok (in_degrees, out_degrees)
    /\ length in_degrees = 3%nat
    /\ length out_degrees = 3%nat
    /\ forall v,
         nth v out_degrees 0%Z = count_id (map fst [(0, 1); (0, 2); (2, 1)]%Z) (Z.of_nat v)
         /\ nth v in_degrees 0%Z = count_id (map snd [(0, 1); (0, 2); (2, 1)]%Z) (Z.of_nat v).
Proof.
  apply (degrees_count_incident_edges [(0, 1); (0, 2); (2, 1)]%Z 3).
  intros id Hid. simpl in Hid. intuition lia.
Defined.

(** ** Every edge is counted once on each side *)

Lemma count_edges_sums (n : nat) (l : list (Z * Z)) (ins outs : list Z) :
  length ins = n -> length outs = n ->
  (forall id, In id (edge_ids l) -> exists k, norm_index n id = Some k) ->
  exists ins' outs',
    for_each l count_edge (ins, outs) = Ok (ins', outs')
    /\ length ins' = n /\ length outs' = n
    /\ sum_list ins' = (sum_list ins + Z.of_nat (length l))%Z
    /\ sum_list outs' = (sum_list outs + Z.of_nat (length l))%Z.
Proof.
  revert ins outs. induction l as [| [s t] l IH]; intros ins outs Hins Houts Hids.
  - exists ins, outs. cbn. repeat split; auto; lia.
  - destruct (Hids s) as [ks Hks].
    { unfold edge_ids. simpl. now left. }
    destruct (Hids t) as [kt Hkt].
    { unfold edge_ids. apply in_or_app. right. simpl. now left. }
    cbn [for_each]. unfold count_edge at 1. cbn [fst snd].
    pose proof (increment_at_cases outs s) as Ho. rewrite Houts, Hks in Ho.
    destruct Ho as [Ho Hko].
    pose proof (increment_at_cases ins t) as Hi. rewrite Hins, Hkt in Hi.
    destruct Hi as [Hi Hki].
    rewrite Ho. cbn [bind]. rewrite Hi. cbn [bind].
    destruct (IH (add_one_at kt ins) (add_one_at ks outs))
      as [ins' [outs' [Hrun [Hli [Hlo [Hsi Hso]]]]]].
    + now rewrite length_add_one_at.
    + now rewrite length_add_one_at.
    + intros id Hid. apply Hids. unfold edge_ids in *.
      rewrite in_app_iff in Hid. cbn [map fst snd]. rewrite in_app_iff. simpl. tauto.
    + exists ins', outs'. repeat split; auto.
      * rewrite <- Hins in Hki. rewrite Hsi, (sum_add_one_at _ _ Hki). cbn [length]. lia.
      * rewrite <- Houts in Hko. rewrite Hso, (sum_add_one_at _ _ Hko). cbn [length]. lia.
Qed.

Lemma sum_np_zeros (n : nat) : sum_list (np_zeros n) = 0%Z.
Proof.
  unfold np_zeros. induction n as [| n IH]; simpl; [reflexivity | exact IH].
Qed.

(** X2: whenever every id is a valid index of the degree arrays (negative
    ids included, which NumPy counts from the end), the pass returns and
    both arrays sum to the number of edges. *)
Theorem degrees_sum_to_number_of_edges
    (pairs : list (Z * Z)) (num_of_nodes : nat)
    (Hids : forall id, In id (edge_ids pairs) ->
              exists k, norm_index num_of_nodes id = Some k) :
  exists in_degrees out_degrees,
    count_in_out_degrees (edge_index_of pairs) num_of_nodes
    = Ok (in_degrees, out_degrees)
    /\ sum_list in_degrees = Z.of_nat (length pairs)
    /\ sum_list out_degrees = Z.of_nat (length pairs).
Proof.
  rewrite count_in_out_degrees_pairs.
  destruct (count_edges_sums num_of_nodes pairs (np_zeros num_of_nodes)
              (np_zeros num_of_nodes)) as [ins [outs [Hrun [_ [_ [Hsi Hso]]]]]];
    try apply repeat_length; try assumption.
  exists ins, outs. rewrite sum_np_zeros in Hsi, Hso. auto.
Qed.

Lemma degrees_sum_to_number_of_edges_witness :
  exists in_degrees out_degrees,
    count_in_out_degrees (edge_index_of [(0, -1); (-2, 1); (1, 0)]%Z) 2
    = Ok (in_degrees, out_degrees)
    /\ sum_list in_degrees = Z.of_nat (length [(0, -1); (-2, 1); (1, 0)]%Z)
    /\ sum_list out_degrees = Z.of_nat (length [(0, -1); (-2, 1); (1, 0)]%Z).
Proof.
  apply (degrees_sum_to_number_of_edges [(0, -1); (-2, 1); (1, 0)]%Z 2).
  intros id Hid. simpl in Hid.
  repeat (destruct Hid as [<- | Hid]; [eexists; reflexivity |]). contradiction.
Defined.

(** ** An id outside the arrays ends the pass *)

Lemma count_edges_out_of_range (n : nat) (l : list (Z * Z)) (ins outs : list Z) :
  length ins = n -> length outs = n ->
  (exists id, In id (edge_ids l) /\ norm_index n id = None) ->
  for_each l count_edge (ins, outs) = Raise IndexError.
Proof.
  revert ins outs. induction l as [| [s t] l IH]; intros ins outs Hins Houts [id [Hid Hbad]].
  - destruct Hid.
  - cbn [for_each]. unfold count_edge at 1. cbn [fst snd].
    pose proof (increment_at_cases outs s) as Ho. rewrite Houts in Ho.
    destruct (norm_index n s) as [ks |] eqn:Hks; [| now rewrite Ho].
    destruct Ho as [Ho Hko]. rewrite Ho. cbn [bind].
    pose proof (increment_at_cases ins t) as Hi. rewrite Hins in Hi.
    destruct (norm_index n t) as [kt |] eqn:Hkt; [| now rewrite Hi].
    destruct Hi as [Hi Hki]. rewrite Hi. cbn [bind].
    apply IH; try now rewrite length_add_one_at.
    exists id. split; [| assumption].
    unfold edge_ids in *. cbn [map fst snd] in Hid. rewrite in_app_iff in *.
    simpl in Hid. destruct Hid as [[-> | Hid] | [-> | Hid]]; auto; congruence.
Qed.

(** X3: when some id is not a valid index of arrays sized by the node count,
    the pass over the edges ends with IndexError, and so does
    [plot_in_out_degree_distributions] on that edge index. *)
Theorem out_of_range_id_raises
    (pairs : list (Z * Z)) (num_of_nodes : nat) (dataset_name : string)
    (Hnum : get_num_nodes_from_edge_index (edge_index_of pairs) = Ok num_of_nodes)
    (Hbad : exists id, In id (edge_ids pairs) /\ norm_index num_of_nodes id = None)
    (Hlen : length pairs <> 2%nat) :
  count_in_out_degrees (edge_index_of pairs) num_of_nodes = Raise IndexError
  /\ plot_in_out_degree_distributions (PyArray (edge_index_of pairs)) dataset_name
     = Raise IndexError.
Proof.
  assert (Hrun : count_in_out_degrees (edge_index_of pairs) num_of_nodes = Raise IndexError).
  { rewrite count_in_out_degrees_pairs.
    apply (count_edges_out_of_range num_of_nodes); auto; apply repeat_length. }
  split; [exact Hrun |].
  unfold plot_in_out_degree_distributions, edge_index_of_input, shape_at.
  cbn [edge_index_of shape nth_error bind]. fold (edge_index_of pairs).
  replace (2 =? length pairs)%nat with false by (symmetry; apply Nat.eqb_neq; congruence).
  cbn [bind]. unfold degree_distributions. rewrite Hnum. cbn [bind]. now rewrite Hrun.
Qed.

Lemma out_of_range_id_raises_witness :
  count_in_out_degrees (edge_index_of [(0, 2); (2, 3); (3, 0)]%Z) 3 = Raise IndexError
  /\ plot_in_out_degree_distributions
       (PyArray (edge_index_of [(0, 2); (2, 3); (3, 0)]%Z)) "gap" = Raise IndexError.
Proof.
  apply (out_of_range_id_raises [(0, 2); (2, 3); (3, 0)]%Z 3 "gap").
  - reflexivity.
  - exists 3%Z. split; [simpl; tauto | reflexivity].
  - discriminate.
Defined.

(** Ids below the number of distinct ids, none negative, are dense. *)
Lemma bounded_ids_dense (ids D : list Z) :
  NoDup D -> (forall z, In z D <-> In z ids) ->
  (forall id, In id ids -> (0 <= id < Z.of_nat (length D))%Z) ->
  dense_ids ids.
Proof.
  intros Hnd Hin Hbound id Hid. split; [apply (Hbound id Hid) |].
  intros k Hk. apply Hin.
  assert (Hincl : incl D (map Z.of_nat (seq 0 (length D)))).
  { intros z Hz. apply in_below. apply Hbound, Hin, Hz. }
  assert (Hback : incl (map Z.of_nat (seq 0 (length D))) D).
  { apply (NoDup_length_incl Hnd); [| exact Hincl].
    rewrite length_map, length_seq. lia. }
  apply Hback, in_below. specialize (Hbound id Hid). lia.
Qed.

(** X4: the converse of the sizing rule.  On non-negative ids, if the pass
    over the edges returns for arrays sized by the node count, then the ids
    are dense: every number from 0 up to an id is itself an id. *)
Theorem returning_pass_has_dense_ids
    (pairs : list (Z * Z)) (num_of_nodes : nat) (in_degrees out_degrees : list Z)
    (Hnum : get_num_nodes_from_edge_index (edge_index_of pairs) = Ok num_of_nodes)
    (Hnonneg : forall id, In id (edge_ids pairs) -> (0 <= id)%Z)
    (Hrun : count_in_out_degrees (edge_index_of pairs) num_of_nodes
            = Ok (in_degrees, out_degrees)) :
  dense_ids (edge_ids pairs).
Proof.
  destruct (num_nodes_counts_distinct_ids pairs) as [D [HD [Hnd Hin]]].
  rewrite HD in Hnum. injection Hnum as <-.
  apply (bounded_ids_dense _ D Hnd Hin).
  intros id Hid. split; [now apply Hnonneg |].
  destruct (norm_index (length D) id) as [k |] eqn:Hk.
  - specialize (Hnonneg id Hid). unfold norm_index in Hk.
    destruct ((0 <=? id)%Z && (id <? Z.of_nat (length D))%Z) eqn:E.
    + apply andb_true_iff in E as [_ E]. now apply Z.ltb_lt in E.
    + destruct ((- Z.of_nat (length D) <=? id)%Z && (id <? 0)%Z) eqn:E2; [| discriminate].
      apply andb_true_iff in E2 as [_ E2]. apply Z.ltb_lt in E2. lia.
  - rewrite count_in_out_degrees_pairs in Hrun.
    rewrite (count_edges_out_of_range (length D) pairs) in Hrun;
      [discriminate | apply repeat_length | apply repeat_length | eauto].
Qed.

Lemma returning_pass_has_dense_ids_witness :
  dense_ids (edge_ids [(0, 1); (1, 2); (2, 0)]%Z).
Proof.
  apply (returning_pass_has_dense_ids [(0, 1); (1, 2); (2, 0)]%Z 3 [1; 1; 1]%Z [1; 1; 1]%Z).
  - reflexivity.
  - intros id Hid. simpl in Hid. intuition lia.
  - reflexivity.
Defined.

(** ** The histogram of out-degrees *)

Lemma histogram_loop (l hist : list Z) :
  (forall d, In d l -> (0 <= d < Z.of_nat (length hist))%Z) ->
  exists hist',
    for_each l (fun out_degree h => increment_at h (NpInt out_degree)) hist = Ok hist'
    /\ length hist' = length hist
    /\ (forall v, nth v hist' 0%Z = (nth v hist 0 + count_id l (Z.of_nat v))%Z)
    /\ sum_list hist' = (sum_list hist + Z.of_nat (length l))%Z.
Proof.
  revert hist. induction l as [| d l IH]; intros hist Hl.
  - exists hist. cbn. repeat split; auto; unfold count_id; simpl; intros; lia.
  - assert (Hd : (0 <= d < Z.of_nat (length hist))%Z) by (apply Hl; now left).
    cbn [for_each].
    pose proof (increment_at_cases hist d) as Hinc.
    rewrite (norm_index_nonneg _ d Hd) in Hinc. destruct Hinc as [Hinc Hk].
    rewrite Hinc. cbn [bind].
    destruct (IH (add_one_at (Z.to_nat d) hist)) as [hist' [Hrun [Hlen [Hnth Hsum]]]].
    + intros d' Hd'. rewrite length_add_one_at. apply Hl. now right.
    + exists hist'. rewrite length_add_one_at in Hlen. repeat split; auto.
      * intros v. rewrite Hnth, (nth_add_one_at _ _ _ Hk), count_id_cons.
        destruct (Nat.eqb_spec (Z.to_nat d) v) as [E | E];
          destruct (Z.eqb_spec d (Z.of_nat v)) as [E' | E']; lia.
      * rewrite Hsum, (sum_add_one_at _ _ Hk). cbn [length]. lia.
Qed.

(** X5: for a non-empty array of non-negative out-degrees the histogram is
    built without error; it has one cell per degree from 0 to the largest
    out-degree, cell [d] is the number of nodes of out-degree [d], and the
    cells sum to the number of nodes. *)
Theorem histogram_counts_nodes_per_degree
    (out_degrees : list Z)
    (Hnonempty : out_degrees <> [])
    (Hnonneg : forall d, In d out_degrees -> (0 <= d)%Z) :
  exists hist max_out_degree,
    np_max_int out_degrees = Ok max_out_degree
    /\ In max_out_degree out_degrees
    /\ (forall d, In d out_degrees -> (d <= max_out_degree)%Z)
    /\ out_degree_histogram out_degrees = Ok hist
    /\ Z.of_nat (length hist) = (max_out_degree + 1)%Z
    /\ (forall d, nth d hist 0%Z = count_id out_degrees (Z.of_nat d))
    /\ sum_list hist = Z.of_nat (length out_degrees).
Proof.
  destruct out_degrees as [| x rest]; [contradiction |].
  set (m := fold_left Z.max rest x).
  assert (Hin : In m (x :: rest)).
  { destruct (max_id_attained rest x) as [H | H]; [left; symmetry; exact H | now right]. }
  assert (Hmax : forall d, In d (x :: rest) -> (d <= m)%Z).
  { intros d [<- | Hd]; [apply max_id_ge_init | now apply max_id_ge]. }
  assert (Hm : (0 <= m)%Z) by now apply Hnonneg.
  destruct (histogram_loop (x :: rest) (np_zeros (Z.to_nat (m + 1))))
    as [hist [Hrun [Hlen [Hnth Hsum]]]].
  { intros d Hd. unfold np_zeros. rewrite repeat_length.
    specialize (Hmax d Hd). specialize (Hnonneg d Hd). lia. }
  exists hist, m. unfold out_degree_histogram. cbn [np_max_int bind]. fold m.
  unfold np_zeros in Hlen. rewrite repeat_length in Hlen.
  repeat split; auto.
  - lia.
  - intros d. rewrite Hnth, nth_np_zeros. lia.
  - rewrite Hsum, sum_np_zeros. lia.
Qed.

Lemma histogram_counts_nodes_per_degree_witness :
  exists hist max_out_degree,
    np_max_int [2; 0; 1; 2]%Z = Ok max_out_degree
    /\ In max_out_degree [2; 0; 1; 2]%Z
    /\ (forall d, In d [2; 0; 1; 2]%Z -> (d <= max_out_degree)%Z)
    /\ out_degree_histogram [2; 0; 1; 2]%Z = Ok hist
    /\ Z.of_nat (length hist) = (max_out_degree + 1)%Z
    /\ (forall d, nth d hist 0%Z = count_id [2; 0; 1; 2]%Z (Z.of_nat d))
    /\ sum_list hist = Z.of_nat (length [2; 0; 1; 2]%Z).
Proof.
  apply (histogram_counts_nodes_per_degree [2; 0; 1; 2]%Z).
  - discriminate.
  - intros d Hd. simpl in Hd. intuition lia.
Defined.

(** ** The whole of the degree statistics *)

Lemma count_id_nonneg (ids : list Z) (v : Z) : (0 <= count_id ids v)%Z.
Proof.
  unfold count_id. lia.
Qed.

(** The statistics on an edge index with dense ids and at least one edge. *)
Lemma degree_distributions_on_dense_ids
    (pairs : list (Z * Z)) (dataset_name : string) :
  dense_ids (edge_ids pairs) -> pairs <> [] ->
  exists plots,
    degree_distributions (edge_index_of pairs) dataset_name = Ok plots
    /\ Z.of_nat (length (plot_in_degrees plots)) = (max_id (edge_ids pairs) + 1)%Z
    /\ Z.of_nat (length (plot_out_degrees plots)) = (max_id (edge_ids pairs) + 1)%Z
    /\ (forall v,
          nth v (plot_out_degrees plots) 0%Z = count_id (map fst pairs) (Z.of_nat v)
          /\ nth v (plot_in_degrees plots) 0%Z = count_id (map snd pairs) (Z.of_nat v))
    /\ (forall d,
          nth d (plot_hist plots) 0%Z = count_id (plot_out_degrees plots) (Z.of_nat d))
    /\ sum_list (plot_hist plots) = (max_id (edge_ids pairs) + 1)%Z.
Proof.
  intros Hdense Hedges.
  destruct (num_nodes_counts_distinct_ids pairs) as [D [Hnum [Hnd Hin]]].
  pose proof (dense_count _ D Hdense Hnd Hin) as Hsize.
  assert (Hids : forall id, In id (edge_ids pairs) -> (0 <= id < Z.of_nat (length D))%Z).
  { intros id Hid. destruct (Hdense id Hid) as [H0 _].
    pose proof (max_id_ge (edge_ids pairs) (-1)%Z id Hid) as Hle.
    fold (max_id (edge_ids pairs)) in Hle. lia. }
  destruct (count_edges_counts (length D) pairs (np_zeros (length D)) (np_zeros (length D)))
    as [ins [outs [Hrun [Hli [Hlo Hcount]]]]]; try apply repeat_length; try assumption.
  assert (Hpos : (0 < length D)%nat).
  { destruct pairs as [| [s t] pairs]; [contradiction |].
    specialize (Hids s). unfold edge_ids in Hids. simpl in Hids.
    specialize (Hids (or_introl eq_refl)). lia. }
  assert (Houts : forall v, nth v outs 0%Z = count_id (map fst pairs) (Z.of_nat v)).
  { intros v. destruct (Hcount v) as [Hv _]. rewrite Hv, nth_np_zeros. lia. }
  assert (Hins : forall v, nth v ins 0%Z = count_id (map snd pairs) (Z.of_nat v)).
  { intros v. destruct (Hcount v) as [_ Hv]. rewrite Hv, nth_np_zeros. lia. }
  destruct (histogram_loop outs (np_zeros (Z.to_nat (fold_left Z.max (tl outs) (hd 0%Z outs) + 1))))
    as [hist [Hhist [_ [Hnth Hsum]]]].
  { intros d Hd. unfold np_zeros. rewrite repeat_length.
    assert (Hd0 : (0 <= d)%Z).
    { destruct (In_nth outs d 0%Z Hd) as [v [_ <-]]. rewrite Houts. apply count_id_nonneg. }
    destruct outs as [| x rest]; [destruct Hd |]. cbn [hd tl].
    assert (Hdm : (d <= fold_left Z.max rest x)%Z).
    { destruct Hd as [<- | Hd]; [apply max_id_ge_init | now apply max_id_ge]. }
    lia. }
  assert (Hhistogram : out_degree_histogram outs = Ok hist).
  { destruct outs as [| x rest]; [simpl in Hlo; lia |]. exact Hhist. }
  exists {| plot_in_degrees := ins;
            plot_out_degrees := outs;
            plot_hist := hist;
            plot_hist_title :=
              ("Node out degree distribution for " ++ dataset_name ++ " dataset")%string |}.
  cbn [plot_in_degrees plot_out_degrees plot_hist].
  split.
  { unfold degree_distributions. rewrite Hnum. cbn [bind].
    rewrite count_in_out_degrees_pairs, Hrun. cbn [bind].
    unfold degree_plots_of. rewrite Hhistogram. reflexivity. }
  split; [lia |]. split; [lia |]. split; [intros v; split; auto |]. split.
  - intros d. rewrite Hnth, nth_np_zeros. lia.
  - rewrite Hsum, sum_np_zeros. lia.
Qed.

(** X6: on an edge index with dense ids, with at least one edge and not
    exactly two, [plot_in_out_degree_distributions] returns: the degree
    arrays have one cell per id from 0 to the largest, they hold the numbers
    of leaving and entering edges, and the histogram holds the number of
    nodes of each out-degree and sums to the number of nodes. *)
Theorem plot_returns_on_dense_ids
    (pairs : list (Z * Z)) (dataset_name : string)
    (Hdense : dense_ids (edge_ids pairs))
    (Hedges : pairs <> [])
    (Hlen : length pairs <> 2%nat) :
  exists plots,
    plot_in_out_degree_distributions (PyArray (edge_index_of pairs)) dataset_name
    = Ok plots
    /\ Z.of_nat (length (plot_in_degrees plots)) = (max_id (edge_ids pairs) + 1)%Z
    /\ Z.of_nat (length (plot_out_degrees plots)) = (max_id (edge_ids pairs) + 1)%Z
    /\ (forall v,
          nth v (plot_out_degrees plots) 0%Z = count_id (map fst pairs) (Z.of_nat v)
          /\ nth v (plot_in_degrees plots) 0%Z = count_id (map snd pairs) (Z.of_nat v))
    /\ (forall d,
          nth d (plot_hist plots) 0%Z = count_id (plot_out_degrees plots) (Z.of_nat d))
    /\ sum_list (plot_hist plots) = (max_id (edge_ids pairs) + 1)%Z.
Proof.
  unfold plot_in_out_degree_distributions, edge_index_of_input, shape_at.
  cbn [edge_index_of shape nth_error bind]. fold (edge_index_of pairs).
  replace (2 =? length pairs)%nat with false by (symmetry; apply Nat.eqb_neq; congruence).
  cbn [bind]. now apply degree_distributions_on_dense_ids.
Qed.

Lemma plot_returns_on_dense_ids_witness :
  exists plots,
    plot_in_out_degree_distributions
      (PyArray (edge_index_of [(0, 1); (0, 2); (2, 1)]%Z)) "dense" = Ok plots
    /\ Z.of_nat (length (plot_in_degrees plots))
       = (max_id (edge_ids [(0, 1); (0, 2); (2, 1)]%Z) + 1)%Z
    /\ Z.of_nat (length (plot_out_degrees plots))
       = (max_id (edge_ids [(0, 1); (0, 2); (2, 1)]%Z) + 1)%Z
    /\ (forall v,
          nth v (plot_out_degrees plots) 0%Z
          = count_id (map fst [(0, 1); (0, 2); (2, 1)]%Z) (Z.of_nat v)
          /\ nth v (plot_in_degrees plots) 0%Z
             = count_id (map snd [(0, 1); (0, 2); (2, 1)]%Z) (Z.of_nat v))
    /\ (forall d,
          nth d (plot_hist plots) 0%Z = count_id (plot_out_degrees plots) (Z.of_nat d))
    /\ sum_list (plot_hist plots) = (max_id (edge_ids [(0, 1); (0, 2); (2, 1)]%Z) + 1)%Z.
Proof.
  apply (plot_returns_on_dense_ids [(0, 1); (0, 2); (2, 1)]%Z "dense").
  - intros id Hid. simpl in Hid.
    assert (Hcases : (id = 0 \/ id = 1 \/ id = 2)%Z) by intuition lia.
    split; [lia |]. intros k Hk. simpl.
    assert (Hk' : (k = 0 \/ k = 1 \/ k = 2)%Z) by lia.
    intuition lia.
  - discriminate.
  - discriminate.
Defined.

(** * Further properties of the converter *)

(** ** The order of the emitted pairs *)

Lemma StronglySorted_app_intro {A : Type} (R : A -> A -> Prop) (l1 l2 : list A) :
  StronglySorted R l1 -> StronglySorted R l2 ->
  (forall x y, In x l1 -> In y l2 -> R x y) ->
  StronglySorted R (l1 ++ l2).
Proof.
  intros H1 H2 Hcross. induction H1 as [| x l1 Hl1 IH Hx]; simpl; [exact H2 |].
  constructor.
  - apply IH. intros a b Ha Hb. apply Hcross; [now right | assumption].
  - apply Forall_app. split; [assumption |].
    apply Forall_forall. intros y Hy. apply Hcross; [now left | assumption].
Qed.

Lemma StronglySorted_filter_keep {A : Type} (R : A -> A -> Prop) (f : A -> bool)
    (l : list A) :
  StronglySorted R l -> StronglySorted R (filter f l).
Proof.
  induction 1 as [| x l Hl IH Hx]; simpl; [constructor |].
  destruct (f x); [| assumption].
  constructor; [assumption |].
  apply Forall_forall. intros y Hy. apply filter_In in Hy as [Hy _].
  rewrite Forall_forall in Hx. now apply Hx.
Qed.

Lemma row_sorted (i start w : nat) :
  StronglySorted row_major_lt (map (pair i) (seq start w)).
Proof.
  revert start. induction w as [| w IH]; intros start; simpl; constructor; [apply IH |].
  apply Forall_forall. intros q Hq. apply in_map_iff in Hq as [j [<- Hj]].
  apply in_seq in Hj. right. simpl. lia.
Qed.

Lemma rows_sorted (start h w : nat) :
  StronglySorted row_major_lt (list_prod (seq start h) (seq 0 w)).
Proof.
  revert start. induction h as [| h IH]; intros start; simpl; [constructor |].
  apply StronglySorted_app_intro; [apply row_sorted | apply IH |].
  intros p q Hp Hq. apply in_map_iff in Hp as [j [<- Hj]].
  destruct q as [a b]. apply in_prod_iff in Hq as [Ha _]. apply in_seq in Ha.
  left. simpl. lia.
Qed.

Lemma StronglySorted_NoDup {A : Type} (R : A -> A -> Prop) (l : list A) :
  (forall x, ~ R x x) -> StronglySorted R l -> NoDup l.
Proof.
  intros Hirr. induction 1 as [| x l Hl IH Hx]; constructor; [| assumption].
  intros Hin. rewrite Forall_forall in Hx. exact (Hirr x (Hx x Hin)).
Qed.

Lemma length_filter_le {A : Type} (f : A -> bool) (l : list A) :
  (length (filter f l) <= length l)%nat.
Proof.
  induction l as [| x l IH]; simpl; [lia |]. destruct (f x); simpl; lia.
Qed.

(** X7: on a well-formed square matrix the converter always returns.  The
    emitted pairs are positions of the matrix, in strictly increasing
    row-major order, hence without repetition and at most n * n of them, and
    when there is at least one the array returned is the (2, N) edge index
    of these positions. *)
Theorem converter_emits_sorted_positions
    (n : nat) (rows : list (list npscalar))
    (Hwf : wf_ndarray (Nd2 n n rows) = true) :
  exists edge_index cells,
    convert_adj_to_edge_index (PyArray (Nd2 n n rows)) = Ok edge_index
    /\ edge_pairs edge_index = map encode_pair cells
    /\ (forall i j, In (i, j) cells -> (i < n)%nat /\ (j < n)%nat)
    /\ StronglySorted row_major_lt cells
    /\ NoDup cells
    /\ (length cells <= n * n)%nat
    /\ (cells <> [] -> edge_index = edge_index_of (map node_ids cells)
                       /\ wf_ndarray edge_index = true).
Proof.
  set (cells := active_cells (Nd2 n n rows) n n (active_value (Nd2 n n rows))).
  assert (Hsorted : StronglySorted row_major_lt cells).
  { apply StronglySorted_filter_keep, rows_sorted. }
  exists (transpose (asarray_pairs (map node_ids cells))), cells.
  split; [apply (convert_square n rows Hwf) |].
  split; [apply edge_pairs_returned |].
  split.
  { intros i j Hin. apply (in_active_cells n n rows _ i j Hwf) in Hin as [c [Hc _]].
    exact (cell_in_bounds n n rows i j c Hwf Hc). }
  split; [exact Hsorted |].
  split.
  { apply (StronglySorted_NoDup row_major_lt); [| exact Hsorted].
    intros [a b] [H | [_ H]]; simpl in H; lia. }
  split.
  { unfold cells, active_cells, row_major.
    eapply Nat.le_trans; [apply length_filter_le |].
    rewrite length_prod, !length_seq. lia. }
  intros Hne. rewrite transpose_asarray_pairs.
  destruct cells as [| p cells']; [contradiction |].
  cbn [map]. split; [reflexivity |].
  unfold edge_index_of, wf_ndarray. cbn [forallb].
  rewrite !length_map, !Nat.eqb_refl. reflexivity.
Qed.

Lemma converter_emits_sorted_positions_witness :
  exists edge_index cells,
    convert_adj_to_edge_index (PyArray (Nd2 2 2 mask_2x2)) = Ok edge_index
    /\ edge_pairs edge_index = map encode_pair cells
    /\ (forall i j, In (i, j) cells -> (i < 2)%nat /\ (j < 2)%nat)
    /\ StronglySorted row_major_lt cells
    /\ NoDup cells
    /\ (length cells <= 2 * 2)%nat
    /\ (cells <> [] -> edge_index = edge_index_of (map node_ids cells)
                       /\ wf_ndarray edge_index = true).
Proof.
  apply (converter_emits_sorted_positions 2 mask_2x2). reflexivity.
Defined.

(** ** Adjacency matrices and connectivity masks *)

Lemma cell_map (f : Z -> npscalar) (h w : nat) (m : list (list Z)) (i j : nat) :
  cell (Nd2 h w (map (map f) m)) i j = option_map f (get2 m i j).
Proof.
  unfold cell, get2. rewrite nth_error_map.
  destruct (nth_error m i) as [r |]; simpl; [apply nth_error_map | reflexivity].
Qed.

Lemma wf_map (f g : Z -> npscalar) (h w : nat) (m : list (list Z)) :
  wf_ndarray (Nd2 h w (map (map f) m)) = wf_ndarray (Nd2 h w (map (map g) m)).
Proof.
  unfold wf_ndarray. rewrite !length_map. f_equal.
  induction m as [| r m IH]; simpl; [reflexivity |].
  now rewrite !length_map, IH.
Qed.

Lemma elements_map (f : Z -> npscalar) (h w : nat) (m : list (list Z)) :
  elements (Nd2 h w (map (map f) m)) = map f (concat m).
Proof.
  simpl. now rewrite concat_map.
Qed.

Lemma int_rows_not_infinite (h w : nat) (m : list (list Z)) :
  ~ has_infinite (Nd2 h w (int_rows m)).
Proof.
  intros [c [Hin Hinf]]. unfold int_rows in Hin. rewrite elements_map in Hin.
  apply in_map_iff in Hin as [z [<- _]]. discriminate.
Qed.

Lemma np_eq_int_mask_cell (z : Z) : np_eq_int (mask_cell z) 0 = (z =? 1)%Z.
Proof.
  unfold mask_cell. destruct (z =? 1)%Z; reflexivity.
Qed.

(** X8: the mask of an integer adjacency matrix with at least one cell other
    than 1 gives the same result as the matrix itself: the comment's
    "connectivity masks are equivalent to adjacency matrices" holds as soon
    as the mask has an infinite cell. *)
Theorem mask_converts_like_adjacency
    (n : nat) (m : list (list Z))
    (Hwf : wf_ndarray (Nd2 n n (int_rows m)) = true)
    (Hgap : exists z, In z (concat m) /\ z <> 1%Z) :
  convert_adj_to_edge_index (PyArray (Nd2 n n (mask_of m)))
  = convert_adj_to_edge_index (PyArray (Nd2 n n (int_rows m))).
Proof.
  assert (Hwf' : wf_ndarray (Nd2 n n (mask_of m)) = true).
  { unfold mask_of. rewrite (wf_map mask_cell NpInt). exact Hwf. }
  rewrite (convert_square n _ Hwf), (convert_square n _ Hwf').
  assert (Hav : active_value (Nd2 n n (mask_of m)) = 0%Z).
  { apply active_value_infinite. destruct Hgap as [z [Hz Hne]].
    exists (mask_cell z). split.
    - unfold mask_of. rewrite elements_map. now apply in_map.
    - unfold mask_cell. apply Z.eqb_neq in Hne. now rewrite Hne. }
  rewrite Hav, (active_value_finite _ (int_rows_not_infinite n n m)).
  do 4 f_equal. unfold active_cells. apply filter_ext. intros [i j].
  unfold is_active, mask_of, int_rows. cbn [fst snd]. rewrite !cell_map.
  destruct (get2 m i j) as [z |]; simpl; [| reflexivity].
  apply np_eq_int_mask_cell.
Qed.

Lemma mask_converts_like_adjacency_witness :
  convert_adj_to_edge_index (PyArray (Nd2 3 3 (mask_of [[0; 1; 1]; [1; 0; 0]; [1; 0; 0]]%Z)))
  = convert_adj_to_edge_index
      (PyArray (Nd2 3 3 (int_rows [[0; 1; 1]; [1; 0; 0]; [1; 0; 0]]%Z))).
Proof.
  apply (mask_converts_like_adjacency 3 [[0; 1; 1]; [1; 0; 0]; [1; 0; 0]]%Z).
  - reflexivity.
  - exists 0%Z. split; [simpl; tauto | discriminate].
Defined.

Lemma active_cells_none (a : ndarray) (h w : nat) (av : Z) :
  (forall c, In c (elements a) -> np_eq_int c av = false) ->
  active_cells a h w av = [].
Proof.
  intros Hnone. unfold active_cells.
  induction (row_major h w) as [| [i j] l IH]; simpl; [reflexivity |].
  unfold is_active at 1. cbn [fst snd].
  destruct (cell a i j) as [c |] eqn:Hc; [| exact IH].
  destruct a as [xs | h' w' rows]; [discriminate |].
  now rewrite (Hnone c (cell_in_elements _ _ _ _ _ _ Hc)).
Qed.

(** X9: a square matrix with no infinite cell and no cell equal to 1 (a mask
    of a fully connected graph, all zeros, or a weighted matrix without the
    weight 1) gives the empty one-dimensional array, and both callers end
    with IndexError on it. *)
Theorem matrix_without_ones_gives_no_edge
    (ig : igraph_api) (url : string) (n : nat) (rows : list (list npscalar))
    (node_labels : list Z) (dataset_name : string) (tool : GraphVisualizationTool)
    (Hfinite : ~ has_infinite (Nd2 n n rows))
    (Hnone : forall c, In c (elements (Nd2 n n rows)) -> np_eq_int c 1 = false)
    (Hwf : wf_ndarray (Nd2 n n rows) = true) :
  convert_adj_to_edge_index (PyArray (Nd2 n n rows)) = Ok (Nd1 [])
  /\ plot_in_out_degree_distributions (PyArray (Nd2 n n rows)) dataset_name
     = Raise IndexError
  /\ visualize_graph ig url (PyArray (Nd2 n n rows)) node_labels dataset_name tool
     = Raise IndexError.
Proof.
  assert (Hconv : convert_adj_to_edge_index (PyArray (Nd2 n n rows)) = Ok (Nd1 [])).
  { rewrite (convert_square n rows Hwf), (active_value_finite _ Hfinite).
    now rewrite (active_cells_none _ n n 1 Hnone). }
  assert (Hinput : edge_index_of_input (Nd2 n n rows) = Ok (Nd1 [])).
  { unfold edge_index_of_input, shape_at. cbn [shape nth_error bind].
    now rewrite Nat.eqb_refl. }
  repeat split; [exact Hconv | |].
  - unfold plot_in_out_degree_distributions. now rewrite Hinput.
  - unfold visualize_graph. now rewrite Hinput.
Qed.

Lemma matrix_without_ones_gives_no_edge_witness :
  convert_adj_to_edge_index (PyArray (Nd2 2 2 (mask_of [[1; 1]; [1; 1]]%Z))) = Ok (Nd1 [])
  /\ plot_in_out_degree_distributions (PyArray (Nd2 2 2 (mask_of [[1; 1]; [1; 1]]%Z))) "full"
     = Raise IndexError
  /\ visualize_graph sample_igraph "url" (PyArray (Nd2 2 2 (mask_of [[1; 1]; [1; 1]]%Z)))
       [0; 1]%Z "full" NETWORKX
     = Raise IndexError.
Proof.
  apply (matrix_without_ones_gives_no_edge sample_igraph "url" 2
           (mask_of [[1; 1]; [1; 1]]%Z) [0; 1]%Z "full" NETWORKX).
  - intros [c [Hin Hinf]]. simpl in Hin.
    repeat (destruct Hin as [<- | Hin]; [discriminate |]). contradiction.
  - intros c Hin. simpl in Hin.
    repeat (destruct Hin as [<- | Hin]; [reflexivity |]). contradiction.
  - reflexivity.
Defined.

(** ** Transposing the matrix reverses the edges *)

Lemma column_rows (w j : nat) (rows : list (list npscalar)) :
  forallb (fun r => (length r =? w)%nat) rows = true -> (j < w)%nat ->
  length (column j rows) = length rows
  /\ forall i, nth_error (column j rows) i
               = match nth_error rows i with
                 | Some r => nth_error r j
                 | None => None
                 end.
Proof.
  intros Hrows Hj. induction rows as [| r rows IH]; simpl.
  - split; [reflexivity |]. intros i. now destruct i.
  - simpl in Hrows. apply andb_true_iff in Hrows as [Hr Hrows].
    apply Nat.eqb_eq in Hr. destruct (IH Hrows) as [Hlen Hnth].
    destruct (nth_error r j) as [c |] eqn:Hc.
    + simpl. split; [now rewrite Hlen |].
      intros [| i]; simpl; [now rewrite Hc | apply Hnth].
    + apply nth_error_None in Hc. lia.
Qed.

Lemma wf_transpose (h w : nat) (rows : list (list npscalar)) :
  wf_ndarray (Nd2 h w rows) = true -> wf_ndarray (transpose (Nd2 h w rows)) = true.
Proof.
  simpl. intros Hwf. apply andb_true_iff in Hwf as [Hlen Hrows].
  apply Nat.eqb_eq in Hlen. rewrite length_map, length_seq, Nat.eqb_refl. simpl.
  apply forallb_forall. intros col Hcol.
  apply in_map_iff in Hcol as [j [<- Hj]]. apply in_seq in Hj.
  destruct (column_rows w j rows Hrows) as [Hl _]; [lia |].
  apply Nat.eqb_eq. congruence.
Qed.

Lemma cell_transpose (h w : nat) (rows : list (list npscalar)) (i j : nat) :
  wf_ndarray (Nd2 h w rows) = true ->
  cell (transpose (Nd2 h w rows)) i j = cell (Nd2 h w rows) j i.
Proof.
  intros Hwf. pose proof Hwf as Hwf'. simpl in Hwf'.
  apply andb_true_iff in Hwf' as [Hlen Hrows].
  cbn [transpose cell]. rewrite nth_error_map.
  destruct (Nat.lt_ge_cases i w) as [Hi | Hi].
  - rewrite nth_error_seq. replace (i <? w)%nat with true by (symmetry; now apply Nat.ltb_lt).
    simpl. destruct (column_rows w i rows Hrows Hi) as [_ Hnth]. apply Hnth.
  - rewrite nth_error_seq. replace (i <? w)%nat with false by (symmetry; now apply Nat.ltb_ge).
    simpl. destruct (nth_error rows j) as [r |] eqn:Hr; [| reflexivity].
    symmetry. apply nth_error_None.
    rewrite forallb_forall in Hrows.
    specialize (Hrows r (nth_error_In _ _ Hr)). apply Nat.eqb_eq in Hrows. lia.
Qed.

Lemma in_elements_cell (h w : nat) (rows : list (list npscalar)) (c : npscalar) :
  In c (elements (Nd2 h w rows)) <-> exists i j, cell (Nd2 h w rows) i j = Some c.
Proof.
  split.
  - simpl. intros Hin. apply in_concat in Hin as [r [Hr Hc]].
    apply In_nth_error in Hr as [i Hi]. apply In_nth_error in Hc as [j Hj].
    exists i, j. now rewrite Hi.
  - intros [i [j Hc]]. exact (cell_in_elements _ _ _ _ _ _ Hc).
Qed.

Lemma has_infinite_transpose (h w : nat) (rows : list (list npscalar)) :
  wf_ndarray (Nd2 h w rows) = true ->
  has_infinite (transpose (Nd2 h w rows)) <-> has_infinite (Nd2 h w rows).
Proof.
  intros Hwf. unfold has_infinite.
  split; intros [c [Hin Hinf]]; exists c; split; try assumption.
  - cbn [transpose] in Hin. apply in_elements_cell in Hin as [i [j Hc]].
    change (Nd2 w h (map (fun k => column k rows) (seq 0 w)))
      with (transpose (Nd2 h w rows)) in Hc.
    rewrite (cell_transpose h w rows i j Hwf) in Hc.
    exact (cell_in_elements _ _ _ _ _ _ Hc).
  - apply in_elements_cell in Hin as [i [j Hc]].
    rewrite <- (cell_transpose h w rows j i Hwf) in Hc. cbn [transpose] in *.
    exact (cell_in_elements _ _ _ _ _ _ Hc).
Qed.

Lemma active_value_transpose (h w : nat) (rows : list (list npscalar)) :
  wf_ndarray (Nd2 h w rows) = true ->
  active_value (transpose (Nd2 h w rows)) = active_value (Nd2 h w rows).
Proof.
  intros Hwf. pose proof (has_infinite_transpose h w rows Hwf) as Hiff.
  unfold active_value at 2.
  destruct (existsb np_isinf (elements (Nd2 h w rows))) eqn:E.
  - apply active_value_infinite, Hiff. apply existsb_exists in E. exact E.
  - apply active_value_finite. intros Hinf. apply Hiff in Hinf.
    destruct Hinf as [c Hc]. assert (existsb np_isinf (elements (Nd2 h w rows)) = true)
      by (apply existsb_exists; eauto). congruence.
Qed.

Lemma in_map_encode_pair (p : nat * nat) (cells : list (nat * nat)) :
  In (encode_pair p) (map encode_pair cells) <-> In p cells.
Proof.
  split; [| apply in_map].
  intros Hin. apply in_map_iff in Hin as [[a b] [Heq Hq]].
  destruct p as [i j]. unfold encode_pair in Heq. simpl in Heq.
  injection Heq as Ha Hb. apply Nat2Z.inj in Ha, Hb. now subst.
Qed.

(** X10: transposing a square matrix reverses the edge list: the pair
    (i, j) is returned for the transposed matrix exactly when (j, i) is
    returned for the matrix. *)
Theorem transposed_matrix_reverses_edges
    (n : nat) (rows : list (list npscalar))
    (Hwf : wf_ndarray (Nd2 n n rows) = true) :
  exists edge_index reversed,
    convert_adj_to_edge_index (PyArray (Nd2 n n rows)) = Ok edge_index
    /\ convert_adj_to_edge_index (PyArray (transpose (Nd2 n n rows))) = Ok reversed
    /\ forall i j,
         In (encode_pair (i, j)) (edge_pairs reversed)
         <-> In (encode_pair (j, i)) (edge_pairs edge_index).
Proof.
  pose proof (wf_transpose n n rows Hwf) as Hwft.
  pose proof (active_value_transpose n n rows Hwf) as Hav.
  cbn [transpose] in Hwft, Hav |- *.
  set (rows' := map (fun j => column j rows) (seq 0 n)) in *.
  eexists _, _.
  split; [apply (convert_square n rows Hwf) |].
  split; [apply (convert_square n rows' Hwft) |].
  intros i j. rewrite !edge_pairs_returned, !in_map_encode_pair, Hav.
  rewrite (in_active_cells n n rows' _ i j Hwft), (in_active_cells n n rows _ j i Hwf).
  change (Nd2 n n rows') with (transpose (Nd2 n n rows)).
  now rewrite (cell_transpose n n rows i j Hwf).
Qed.

Lemma transposed_matrix_reverses_edges_witness :
  exists edge_index reversed,
    convert_adj_to_edge_index (PyArray (Nd2 2 2 (int_rows [[0; 1]; [0; 0]]%Z)))
    = Ok edge_index
    /\ convert_adj_to_edge_index
         (PyArray (transpose (Nd2 2 2 (int_rows [[0; 1]; [0; 0]]%Z)))) = Ok reversed
    /\ forall i j,
         In (encode_pair (i, j)) (edge_pairs reversed)
         <-> In (encode_pair (j, i)) (edge_pairs edge_index).
Proof.
  apply (transposed_matrix_reverses_edges 2 (int_rows [[0; 1]; [0; 0]]%Z)). reflexivity.
Defined.

(** * Further properties of the node count *)

(** X11: the node count depends only on the set of ids: two edge lists with
    the same ids (edges reversed, reordered or repeated) have the same
    count, which is at most twice the number of edges. *)
Theorem node_count_depends_on_id_set
    (pairs others : list (Z * Z))
    (Hsame : forall id, In id (edge_ids pairs) <-> In id (edge_ids others)) :
  exists num_of_nodes,
    get_num_nodes_from_edge_index (edge_index_of pairs) = Ok num_of_nodes
    /\ get_num_nodes_from_edge_index (edge_index_of others) = Ok num_of_nodes
    /\ (num_of_nodes <= 2 * length pairs)%nat.
Proof.
  destruct (num_nodes_counts_distinct_ids pairs) as [D [Hnum [Hnd Hin]]].
  destruct (num_nodes_counts_distinct_ids others) as [D' [Hnum' [Hnd' Hin']]].
  exists (length D). split; [exact Hnum |]. split.
  - rewrite Hnum'. f_equal. apply Permutation_length, NoDup_Permutation; auto.
    intros z. rewrite Hin, Hin'. symmetry. apply Hsame.
  - assert (Hincl : incl D (edge_ids pairs)) by (intros z Hz; now apply Hin).
    apply (NoDup_incl_length Hnd) in Hincl.
    unfold edge_ids in Hincl. rewrite length_app, !length_map in Hincl. lia.
Qed.

Lemma node_count_depends_on_id_set_witness :
  exists num_of_nodes,
    get_num_nodes_from_edge_index (edge_index_of [(0, 1); (1, 2); (1, 2)]%Z)
    = Ok num_of_nodes
    /\ get_num_nodes_from_edge_index (edge_index_of [(2, 1); (1, 0)]%Z) = Ok num_of_nodes
    /\ (num_of_nodes <= 2 * length [(0, 1); (1, 2); (1, 2)]%Z)%nat.
Proof.
  apply (node_count_depends_on_id_set [(0, 1); (1, 2); (1, 2)]%Z [(2, 1); (1, 0)]%Z).
  intros id. simpl. intuition lia.
Defined.

(** * Further properties of the edge widths *)

Local Open Scope R_scope.

Lemma clipped_log_low (b : R) : 0 <= b <= 1 -> clipped_log b = 0.
Proof.
  intros [H0 H1]. unfold clipped_log.
  destruct (Rlt_dec 0 b) as [Hpos | _]; [| reflexivity].
  destruct (Rlt_dec (ln b) 0) as [_ | Hln]; [reflexivity |].
  destruct (Req_dec_T b 1) as [-> | Hne]; [apply ln_1 |].
  exfalso. apply Hln. rewrite <- ln_1. apply ln_increasing; lra.
Qed.

Lemma clipped_log_monotone (b b' : R) : b <= b' -> clipped_log b <= clipped_log b'.
Proof.
  intros Hle. unfold clipped_log at 1.
  destruct (Rlt_dec 0 b) as [Hpos | _]; [| apply clipped_log_nonneg].
  destruct (Rlt_dec (ln b) 0) as [_ | Hln]; [apply clipped_log_nonneg |].
  unfold clipped_log. destruct (Rlt_dec 0 b') as [_ | H]; [| lra].
  assert (Hln' : ln b <= ln b').
  { destruct (Req_dec_T b b') as [-> | Hne]; [lra |].
    left. apply ln_increasing; lra. }
  destruct (Rlt_dec (ln b') 0); lra.
Qed.

Lemma fold_Rmax_attained (rs : list R) (r : R) :
  fold_left Rmax rs r = r \/ In (fold_left Rmax rs r) rs.
Proof.
  revert r. induction rs as [| x rs IH]; intros r; simpl; [now left |].
  destruct (IH (Rmax r x)) as [H | H]; [| now right; right].
  rewrite H. unfold Rmax. destruct (Rle_dec r x); [right; now left | now left].
Qed.

Lemma pow6_fin (l : list R) : map pow6 (map Fin l) = map Fin (map (fun r => r ^ 6) l).
Proof.
  induction l as [| r l IH]; simpl; [reflexivity | now rewrite IH].
Qed.

Lemma Forall2_map_right {A B : Type} (P : A -> B -> Prop) (f : A -> B) (l : list A) :
  (forall x, In x l -> P x (f x)) -> Forall2 P l (map f l).
Proof.
  induction l as [| x l IH]; intros H; simpl; constructor.
  - apply H. now left.
  - apply IH. intros y Hy. apply H. now right.
Qed.

(** The widths computed from betweenness values that are non-negative, one
    of them above 1: each is the 6th power of the clipped logarithm divided
    by the largest one. *)
Lemma edge_weights_formula (betweenness : list R) :
  Forall (fun b => 0 <= b) betweenness ->
  Exists (fun b => 1 < b) betweenness ->
  exists m,
    0 < m
    /\ (forall b, In b betweenness -> clipped_log b <= m)
    /\ (exists b, In b betweenness /\ clipped_log b = m)
    /\ edge_weights betweenness
       = Ok (map Fin (map (fun b => (clipped_log b / m) ^ 6) betweenness)).
Proof.
  intros Hnonneg Habove.
  destruct betweenness as [| b0 bs]; [inversion Habove |].
  set (m := fold_left Rmax (map clipped_log bs) (clipped_log b0)).
  assert (Hge : forall b, In b (b0 :: bs) -> clipped_log b <= m).
  { intros b [<- | Hb]; [apply fold_Rmax_ge_init |].
    apply fold_Rmax_ge. now apply in_map. }
  assert (Hm : 0 < m).
  { apply Exists_exists in Habove as [x [Hin Hx]].
    apply Rlt_le_trans with (clipped_log x); [now apply clipped_log_pos | now apply Hge]. }
  exists m. split; [exact Hm |]. split; [exact Hge |]. split.
  { destruct (fold_Rmax_attained (map clipped_log bs) (clipped_log b0)) as [H | H].
    - exists b0. split; [now left | symmetry; exact H].
    - apply in_map_iff in H as [b [Hb Hin]]. exists b. split; [now right | exact Hb]. }
  unfold edge_weights, edge_weights_raw_normalized.
  rewrite (edge_weights_raw_nonneg _ Hnonneg).
  change (map clipped_log (b0 :: bs)) with (clipped_log b0 :: map clipped_log bs).
  rewrite np_max_fin. cbn [bind]. fold m.
  rewrite np_div_fin by lra. rewrite pow6_fin.
  change (clipped_log b0 :: map clipped_log bs) with (map clipped_log (b0 :: bs)).
  now rewrite !map_map.
Qed.

(** X12: when the betweenness values are non-negative and one of them
    exceeds 1, every edge gets a width between 0 and 1; an edge of
    betweenness at most 1 gets width 0, an edge of largest betweenness gets
    width 1, and a larger betweenness never gets a smaller width. *)
Theorem edge_widths_in_unit_interval
    (betweenness : list R)
    (Hnonneg : Forall (fun b => 0 <= b) betweenness)
    (Habove : Exists (fun b => 1 < b) betweenness) :
  exists widths,
    edge_weights betweenness = Ok (map Fin widths)
    /\ Forall2 (fun b w =>
                  0 <= w <= 1
                  /\ (b <= 1 -> w = 0)
                  /\ ((forall b', In b' betweenness -> b' <= b) -> w = 1))
         betweenness widths
    /\ forall i j b b' w w',
         nth_error betweenness i = Some b -> nth_error betweenness j = Some b' ->
         nth_error widths i = Some w -> nth_error widths j = Some w' ->
         b <= b' -> w <= w'.
Proof.
  destruct (edge_weights_formula betweenness Hnonneg Habove)
    as [m [Hm [Hge [[top [Htop Hmax]] Hformula]]]].
  exists (map (fun b => (clipped_log b / m) ^ 6) betweenness).
  split; [exact Hformula |].
  assert (Hratio : forall b, In b betweenness -> 0 <= clipped_log b / m <= 1).
  { intros b Hb. pose proof (clipped_log_nonneg b). specialize (Hge b Hb). split.
    - apply Rmult_le_pos; [assumption | left; now apply Rinv_0_lt_compat].
    - apply (Rmult_le_reg_r m); [assumption |]. field_simplify; lra. }
  split.
  - apply Forall2_map_right. intros b Hb. destruct (Hratio b Hb) as [Hr0 Hr1].
    split; [| split].
    + split; [now apply pow_le |]. rewrite <- (pow1 6). apply pow_incr. lra.
    + intros Hlow. rewrite Forall_forall in Hnonneg.
      rewrite (clipped_log_low b) by (split; [now apply Hnonneg | exact Hlow]).
      unfold Rdiv. rewrite Rmult_0_l. apply pow_i. lia.
    + intros Hlargest.
      assert (Heq : clipped_log b = m).
      { apply Rle_antisym; [now apply Hge |].
        rewrite <- Hmax. apply clipped_log_monotone. now apply Hlargest. }
      rewrite Heq. replace (m / m) with 1 by (field; lra). apply pow1.
  - intros i j b b' w w' Hb Hb' Hw Hw' Hle.
    assert (Ew : w = (clipped_log b / m) ^ 6).
    { rewrite nth_error_map, Hb in Hw. cbn [option_map] in Hw. congruence. }
    assert (Ew' : w' = (clipped_log b' / m) ^ 6).
    { rewrite nth_error_map, Hb' in Hw'. cbn [option_map] in Hw'. congruence. }
    rewrite Ew, Ew'. apply pow_incr. split; [apply (Hratio b), (nth_error_In _ _ Hb) |].
    apply Rmult_le_compat_r; [left; now apply Rinv_0_lt_compat |].
    now apply clipped_log_monotone.
Qed.

Lemma edge_widths_in_unit_interval_witness :
  exists widths,
    edge_weights [1 / 2; 3; 2] = Ok (map Fin widths)
    /\ Forall2 (fun b w =>
                  0 <= w <= 1
                  /\ (b <= 1 -> w = 0)
                  /\ ((forall b', In b' [1 / 2; 3; 2] -> b' <= b) -> w = 1))
         [1 / 2; 3; 2] widths
    /\ forall i j b b' w w',
         nth_error [1 / 2; 3; 2] i = Some b -> nth_error [1 / 2; 3; 2] j = Some b' ->
         nth_error widths i = Some w -> nth_error widths j = Some w' ->
         b <= b' -> w <= w'.
Proof.
  apply edge_widths_in_unit_interval.
  - repeat constructor; lra.
  - apply Exists_cons_tl, Exists_cons_hd. lra.
Defined.

Lemma low_widths_nan (l : list R) :
  map pow6 (map (fun x => np_div x (Fin 0)) (map Fin (map (fun _ : R => 0) l)))
  = map (fun _ => NaN) l.
Proof.
  induction l as [| b l IH]; simpl; [reflexivity |].
  rewrite IH. destruct (Req_dec_T 0 0) as [_ | H]; [reflexivity | contradiction].
Qed.

Lemma fold_Rmax_zeros (l : list R) : fold_left Rmax (map (fun _ : R => 0) l) 0 = 0.
Proof.
  induction l as [| b l IH]; simpl; [reflexivity |].
  rewrite Rmax_left by lra. exact IH.
Qed.

(** X13: when there is an edge and every betweenness lies between 0 and 1
    (a single edge, or edges that share no shortest path), every clipped
    logarithm is 0, the normalization divides 0 by 0 and every edge width
    is NaN. *)
Theorem low_betweenness_gives_nan_widths
    (betweenness : list R)
    (Hedges : betweenness <> [])
    (Hlow : Forall (fun b => 0 <= b <= 1) betweenness) :
  edge_weights betweenness = Ok (map (fun _ => NaN) betweenness).
Proof.
  assert (Hnonneg : Forall (fun b => 0 <= b) betweenness).
  { eapply Forall_impl; [| exact Hlow]. intros b Hb. apply Hb. }
  assert (Hzero : map clipped_log betweenness = map (fun _ => 0) betweenness).
  { apply map_ext_in. intros b Hb. rewrite Forall_forall in Hlow.
    apply clipped_log_low, Hlow, Hb. }
  unfold edge_weights, edge_weights_raw_normalized.
  rewrite (edge_weights_raw_nonneg _ Hnonneg), Hzero.
  destruct betweenness as [| b bs]; [contradiction |].
  change (map (fun _ : R => 0) (b :: bs)) with (0 :: map (fun _ : R => 0) bs).
  rewrite np_max_fin, fold_Rmax_zeros. cbn [bind].
  change (0 :: map (fun _ : R => 0) bs) with (map (fun _ : R => 0) (b :: bs)).
  now rewrite low_widths_nan.
Qed.

Lemma low_betweenness_gives_nan_widths_witness :
  edge_weights [1; 1 / 2] = Ok [NaN; NaN].
Proof.
  apply (low_betweenness_gives_nan_widths [1; 1 / 2]).
  - discriminate.
  - repeat constructor; lra.
Defined.

Local Close Scope R_scope.

(** * Further properties of the dispatcher and of the inputs *)

(** ** The colors of the labels *)

Lemma lookup_color_returns (label : Z) (c : string) :
  lookup_color label = Ok c -> valid_label label /\ In (label, c) label_to_color_map.
Proof.
  intros Hc. unfold valid_label.
  destruct (Z_le_dec 0 label) as [H0 | H0], (Z_le_dec label 6) as [H6 | H6];
    try (rewrite lookup_color_invalid in Hc by (unfold valid_label; lia); discriminate).
  split; [lia |].
  destruct (lookup_color_valid label (conj H0 H6)) as [c' [Hc' Hin]]. congruence.
Qed.

Lemma label_to_color_map_injective (l1 l2 : Z) (c : string) :
  In (l1, c) label_to_color_map -> In (l2, c) label_to_color_map -> l1 = l2.
Proof.
  unfold label_to_color_map. intros H1 H2. simpl in H1, H2.
  repeat (destruct H1 as [H1 | H1];
          [ injection H1 as <- <-;
            repeat (destruct H2 as [H2 | H2];
                    [ first [ discriminate H2 | injection H2 as <-; reflexivity ] |]);
            contradiction |]).
  contradiction.
Qed.

(** X14: when the list of colors is built, every label is one of 0..6, there
    is one color per label, taken from the map, and two nodes get the same
    color only if they have the same label. *)
Theorem vertex_colors_follow_labels
    (node_labels : list Z) (colors : list string)
    (Hcolors : vertex_colors node_labels = Ok colors) :
  length colors = length node_labels
  /\ Forall valid_label node_labels
  /\ Forall2 (fun label c => In (label, c) label_to_color_map) node_labels colors
  /\ forall i j label label' c,
       nth_error node_labels i = Some label -> nth_error node_labels j = Some label' ->
       nth_error colors i = Some c -> nth_error colors j = Some c ->
       label = label'.
Proof.
  assert (Hall : Forall2 (fun label c => valid_label label /\ In (label, c) label_to_color_map)
                   node_labels colors).
  { revert colors Hcolors. induction node_labels as [| label rest IH]; intros colors Hcolors.
    - injection Hcolors as <-. constructor.
    - simpl in Hcolors.
      destruct (lookup_color label) as [c |] eqn:Hc; [| discriminate].
      cbn [bind] in Hcolors.
      destruct (vertex_colors rest) as [cs |] eqn:Hcs; [| discriminate].
      injection Hcolors as <-. constructor; [now apply lookup_color_returns | now apply IH]. }
  split; [symmetry; exact (Forall2_length Hall) |].
  split; [| split].
  - clear Hcolors. induction Hall as [| l c ls cs [Hv _] _ IH]; constructor; assumption.
  - clear Hcolors. induction Hall as [| l c ls cs [_ Hin] _ IH]; constructor; assumption.
  - clear Hcolors. induction Hall as [| l c ls cs [_ Hin] Hrest IH];
      intros i j label label' col Hi Hj Hci Hcj.
    + now destruct i.
    + assert (Hat : forall k lab co, nth_error (l :: ls) k = Some lab ->
                      nth_error (c :: cs) k = Some co -> In (lab, co) label_to_color_map).
      { intros k. revert Hrest Hin. clear.
        intros Hrest Hin. revert k.
        assert (Hall : Forall2 (fun label c => In (label, c) label_to_color_map)
                         (l :: ls) (c :: cs)).
        { constructor; [assumption |].
          induction Hrest as [| ? ? ? ? [_ H] _ IH]; constructor; assumption. }
        induction Hall as [| a b la lb Hab _ IHall]; intros [| k] lab co Hl Hc;
          try discriminate.
        - simpl in Hl, Hc. congruence.
        - simpl in Hl, Hc. eapply IHall; eassumption. }
      eapply label_to_color_map_injective; [eapply Hat | eapply Hat]; eassumption.
Qed.

Lemma vertex_colors_follow_labels_witness :
  length ["green"; "red"; "green"]%string = length [2; 0; 2]%Z
  /\ Forall valid_label [2; 0; 2]%Z
  /\ Forall2 (fun label c => In (label, c) label_to_color_map) [2; 0; 2]%Z
       ["green"; "red"; "green"]%string
  /\ forall i j label label' c,
       nth_error [2; 0; 2]%Z i = Some label -> nth_error [2; 0; 2]%Z j = Some label' ->
       nth_error ["green"; "red"; "green"]%string i = Some c ->
       nth_error ["green"; "red"; "green"]%string j = Some c ->
       label = label'.
Proof.
  apply (vertex_colors_follow_labels [2; 0; 2]%Z ["green"; "red"; "green"]%string).
  reflexivity.
Defined.

(** ** The networkx branch *)

Lemma no_conversion_of_edge_index_of (pairs : list (Z * Z)) :
  length pairs <> 2%nat -> edge_index_of_input (edge_index_of pairs) = Ok (edge_index_of pairs).
Proof.
  intros Hlen. unfold edge_index_of_input, shape_at.
  cbn [edge_index_of shape nth_error bind].
  replace (2 =? length pairs)%nat with false by (symmetry; apply Nat.eqb_neq; congruence).
  reflexivity.
Qed.

(** X15: with NETWORKX an edge index that is not of shape (2, 2) is drawn
    as it is: the edges handed to networkx are the columns in their order,
    repeated edges and self-loops included; the labels and the dataset name
    play no part, whatever the input. *)
Theorem networkx_draws_the_columns
    (ig : igraph_api) (url : string) (pairs : list (Z * Z))
    (node_labels : list Z) (dataset_name : string)
    (Hlen : length pairs <> 2%nat) :
  visualize_graph ig url (PyArray (edge_index_of pairs)) node_labels dataset_name NETWORKX
  = Ok (NetworkxDrawing (map (fun p => (NpInt (fst p), NpInt (snd p))) pairs))
  /\ forall x other_labels other_name,
       visualize_graph ig url x other_labels other_name NETWORKX
       = visualize_graph ig url x node_labels dataset_name NETWORKX.
Proof.
  split.
  - unfold visualize_graph. rewrite (no_conversion_of_edge_index_of pairs Hlen).
    cbn [bind]. unfold draw_edge_index, nodes_and_edge_tuples.
    destruct (num_nodes_counts_distinct_ids pairs) as [D [Hnum _]].
    rewrite Hnum. cbn [bind edge_index_of getrow nth_error dispatch_tool].
    now rewrite combine_map_pair.
  - intros [a | cls] other_labels other_name; [| reflexivity].
    unfold visualize_graph.
    destruct (edge_index_of_input a) as [ei | e]; cbn [bind]; [| reflexivity].
    unfold draw_edge_index.
    destruct (nodes_and_edge_tuples ei) as [[k t] | e]; reflexivity.
Qed.

Lemma networkx_draws_the_columns_witness :
  visualize_graph sample_igraph "url" (PyArray (edge_index_of [(0, 1); (0, 1); (2, 2)]%Z))
    [0; 1; 2]%Z "cora" NETWORKX
  = Ok (NetworkxDrawing [(NpInt 0, NpInt 1); (NpInt 0, NpInt 1); (NpInt 2, NpInt 2)]).
Proof.
  apply (networkx_draws_the_columns sample_igraph "url" [(0, 1); (0, 1); (2, 2)]%Z
           [0; 1; 2]%Z "cora").
  discriminate.
Defined.

(** ** Arrays that are not an edge index *)

(** X16: an edge index needs two rows.  A one-dimensional array, and a
    two-dimensional array of fewer than two rows that is not square, end both
    functions with IndexError, whatever the tool. *)
Theorem edge_index_needs_two_rows
    (ig : igraph_api) (url : string) (xs : list npscalar)
    (h w : nat) (rows : list (list npscalar))
    (node_labels : list Z) (dataset_name : string) (tool : GraphVisualizationTool)
    (Hwf : wf_ndarray (Nd2 h w rows) = true)
    (Hrows : (h < 2)%nat)
    (Hshape : h <> w) :
  plot_in_out_degree_distributions (PyArray (Nd1 xs)) dataset_name = Raise IndexError
  /\ visualize_graph ig url (PyArray (Nd1 xs)) node_labels dataset_name tool
     = Raise IndexError
  /\ plot_in_out_degree_distributions (PyArray (Nd2 h w rows)) dataset_name
     = Raise IndexError
  /\ visualize_graph ig url (PyArray (Nd2 h w rows)) node_labels dataset_name tool
     = Raise IndexError.
Proof.
  split; [reflexivity |]. split; [reflexivity |].
  assert (Hinput : edge_index_of_input (Nd2 h w rows) = Ok (Nd2 h w rows)).
  { unfold edge_index_of_input, shape_at. cbn [shape nth_error bind].
    apply Nat.eqb_neq in Hshape. now rewrite Hshape. }
  assert (Hnum : get_num_nodes_from_edge_index (Nd2 h w rows) = Raise IndexError).
  { simpl in Hwf. apply andb_true_iff in Hwf as [Hlen _]. apply Nat.eqb_eq in Hlen.
    unfold get_num_nodes_from_edge_index, iter_getitem.
    destruct rows as [| r0 [| r1 rest]]; simpl in Hlen; try reflexivity. lia. }
  split.
  - unfold plot_in_out_degree_distributions. rewrite Hinput. cbn [bind].
    unfold degree_distributions. now rewrite Hnum.
  - unfold visualize_graph. rewrite Hinput. cbn [bind].
    unfold draw_edge_index, nodes_and_edge_tuples. now rewrite Hnum.
Qed.

Lemma edge_index_needs_two_rows_witness :
  plot_in_out_degree_distributions (PyArray (Nd1 [NpInt 0; NpInt 1])) "flat"
  = Raise IndexError
  /\ visualize_graph sample_igraph "url" (PyArray (Nd1 [NpInt 0; NpInt 1])) [0]%Z "flat" IGRAPH
     = Raise IndexError
  /\ plot_in_out_degree_distributions (PyArray (Nd2 1 3 (int_rows [[0; 1; 2]]%Z))) "flat"
     = Raise IndexError
  /\ visualize_graph sample_igraph "url" (PyArray (Nd2 1 3 (int_rows [[0; 1; 2]]%Z)))
       [0]%Z "flat" IGRAPH
     = Raise IndexError.
Proof.
  apply (edge_index_needs_two_rows sample_igraph "url" [NpInt 0; NpInt 1] 1 3
           (int_rows [[0; 1; 2]]%Z) [0]%Z "flat" IGRAPH).
  - reflexivity.
  - lia.
  - discriminate.
Defined.

(** X17: rows after the second are never read: an array of more than two
    rows (edge attributes under the sources and targets, say) gives the same
    plots and the same drawing as its first two rows. *)
Theorem rows_after_the_second_are_ignored
    (ig : igraph_api) (url : string) (h w : nat)
    (sources targets : list npscalar) (rest : list (list npscalar))
    (node_labels : list Z) (dataset_name : string) (tool : GraphVisualizationTool)
    (Hshape : h <> w)
    (Hcolumns : w <> 2%nat) :
  plot_in_out_degree_distributions (PyArray (Nd2 h w (sources :: targets :: rest)))
    dataset_name
  = plot_in_out_degree_distributions (PyArray (Nd2 2 w [sources; targets])) dataset_name
  /\ visualize_graph ig url (PyArray (Nd2 h w (sources :: targets :: rest)))
       node_labels dataset_name tool
     = visualize_graph ig url (PyArray (Nd2 2 w [sources; targets]))
         node_labels dataset_name tool.
Proof.
  assert (Hin : edge_index_of_input (Nd2 h w (sources :: targets :: rest))
                = Ok (Nd2 h w (sources :: targets :: rest))).
  { unfold edge_index_of_input, shape_at. cbn [shape nth_error bind].
    apply Nat.eqb_neq in Hshape. now rewrite Hshape. }
  assert (Hin2 : edge_index_of_input (Nd2 2 w [sources; targets])
                 = Ok (Nd2 2 w [sources; targets])).
  { unfold edge_index_of_input, shape_at. cbn [shape nth_error bind].
    replace (2 =? w)%nat with false by (symmetry; apply Nat.eqb_neq; congruence).
    reflexivity. }
  split.
  - unfold plot_in_out_degree_distributions. rewrite Hin, Hin2. reflexivity.
  - unfold visualize_graph. rewrite Hin, Hin2. reflexivity.
Qed.

Lemma rows_after_the_second_are_ignored_witness :
  plot_in_out_degree_distributions
    (PyArray (Nd2 3 4 (int_rows [[0; 1; 2; 0]; [1; 2; 0; 2]; [7; 7; 9; 9]]%Z))) "weighted"
  = plot_in_out_degree_distributions
      (PyArray (Nd2 2 4 (int_rows [[0; 1; 2; 0]; [1; 2; 0; 2]]%Z))) "weighted"
  /\ visualize_graph sample_igraph "url"
       (PyArray (Nd2 3 4 (int_rows [[0; 1; 2; 0]; [1; 2; 0; 2]; [7; 7; 9; 9]]%Z)))
       [0; 1; 2]%Z "weighted" NETWORKX
     = visualize_graph sample_igraph "url"
         (PyArray (Nd2 2 4 (int_rows [[0; 1; 2; 0]; [1; 2; 0; 2]]%Z)))
         [0; 1; 2]%Z "weighted" NETWORKX.
Proof.
  apply (rows_after_the_second_are_ignored sample_igraph "url" 3 4
           (map NpInt [0; 1; 2; 0]%Z) (map NpInt [1; 2; 0; 2]%Z)
           [map NpInt [7; 7; 9; 9]%Z] [0; 1; 2]%Z "weighted" NETWORKX);
    discriminate.
Defined.

(** X18: an edge index needs integer ids.  On a non-square array of two rows
    or more with at least one column whose first source is a float, the node
    count is taken, and the first increment then ends
    [plot_in_out_degree_distributions] with IndexError. *)
Theorem float_edge_index_raises
    (h w : nat) (rows : list (list npscalar)) (f : spec_float) (dataset_name : string)
    (Hwf : wf_ndarray (Nd2 h w rows) = true)
    (Hrows : (2 <= h)%nat)
    (Hshape : h <> w)
    (Hfloat : cell (Nd2 h w rows) 0 0 = Some (NpFloat f)) :
  (exists num_of_nodes, get_num_nodes_from_edge_index (Nd2 h w rows) = Ok num_of_nodes)
  /\ plot_in_out_degree_distributions (PyArray (Nd2 h w rows)) dataset_name
     = Raise IndexError.
Proof.
  assert (Hinput : edge_index_of_input (Nd2 h w rows) = Ok (Nd2 h w rows)).
  { unfold edge_index_of_input, shape_at. cbn [shape nth_error bind].
    apply Nat.eqb_neq in Hshape. now rewrite Hshape. }
  destruct (cell_in_bounds h w rows 0 0 _ Hwf Hfloat) as [_ Hw].
  destruct (wf_cell h w rows 1 0 Hwf) as [c Hc]; [lia | lia |].
  assert (Hnum : exists n, get_num_nodes_from_edge_index (Nd2 h w rows) = Ok n).
  { unfold get_num_nodes_from_edge_index, iter_getitem.
    cbn [cell] in Hfloat, Hc.
    destruct (nth_error rows 0) as [r0 |]; [| discriminate].
    destruct (nth_error rows 1) as [r1 |]; [| discriminate].
    cbn [bind]. eexists. reflexivity. }
  split; [exact Hnum |]. destruct Hnum as [n Hnum].
  unfold plot_in_out_degree_distributions. rewrite Hinput. cbn [bind].
  unfold degree_distributions. rewrite Hnum. cbn [bind].
  unfold count_in_out_degrees, shape_at. cbn [shape nth_error bind].
  destruct w as [| w]; [lia |]. unfold range. cbn [seq for_each].
  rewrite (getitem2_cell _ _ _ _ Hfloat), (getitem2_cell _ _ _ _ Hc).
  reflexivity.
Qed.

Lemma float_edge_index_raises_witness :
  (exists num_of_nodes,
     get_num_nodes_from_edge_index
       (Nd2 2 1 [[NpFloat (float_of_int 0)]; [NpFloat (float_of_int 1)]]) = Ok num_of_nodes)
  /\ plot_in_out_degree_distributions
       (PyArray (Nd2 2 1 [[NpFloat (float_of_int 0)]; [NpFloat (float_of_int 1)]])) "floats"
     = Raise IndexError.
Proof.
  apply (float_edge_index_raises 2 1
           [[NpFloat (float_of_int 0)]; [NpFloat (float_of_int 1)]] (float_of_int 0) "floats").
  - reflexivity.
  - lia.
  - discriminate.
  - reflexivity.
Defined.

(** X19: an edge index without a column.  On an array of two rows or more
    and no column the node count is 0, both degree arrays are empty and the
    maximum of the empty out-degree array ends
    [plot_in_out_degree_distributions] with ValueError. *)
Theorem edge_index_without_edges_raises
    (h : nat) (rows : list (list npscalar)) (dataset_name : string)
    (Hwf : wf_ndarray (Nd2 h 0 rows) = true)
    (Hrows : (2 <= h)%nat) :
  get_num_nodes_from_edge_index (Nd2 h 0 rows) = Ok 0%nat
  /\ count_in_out_degrees (Nd2 h 0 rows) 0 = Ok ([], [])
  /\ plot_in_out_degree_distributions (PyArray (Nd2 h 0 rows)) dataset_name
     = Raise ValueError.
Proof.
  pose proof Hwf as Hwf'. simpl in Hwf'.
  apply andb_true_iff in Hwf' as [Hlen Hall]. apply Nat.eqb_eq in Hlen.
  destruct rows as [| r0 [| r1 rest]]; simpl in Hlen; try lia.
  simpl in Hall. apply andb_true_iff in Hall as [H0 Hall].
  apply andb_true_iff in Hall as [H1 _].
  apply Nat.eqb_eq in H0, H1.
  apply length_zero_iff_nil in H0, H1. subst r0 r1.
  assert (Hinput : edge_index_of_input (Nd2 h 0 ([] :: [] :: rest))
                   = Ok (Nd2 h 0 ([] :: [] :: rest))).
  { unfold edge_index_of_input, shape_at. cbn [shape nth_error bind].
    replace (h =? 0)%nat with false by (symmetry; apply Nat.eqb_neq; lia).
    reflexivity. }
  split; [reflexivity |]. split; [reflexivity |].
  unfold plot_in_out_degree_distributions. rewrite Hinput. reflexivity.
Qed.

Lemma edge_index_without_edges_raises_witness :
  get_num_nodes_from_edge_index (Nd2 2 0 [[]; []]) = Ok 0%nat
  /\ count_in_out_degrees (Nd2 2 0 [[]; []]) 0 = Ok ([], [])
  /\ plot_in_out_degree_distributions (PyArray (Nd2 2 0 [[]; []])) "empty"
     = Raise ValueError.
Proof.
  apply (edge_index_without_edges_raises 2 [[]; []] "empty"); [reflexivity | lia].
Defined.

(** * From an adjacency matrix to its degrees *)

Lemma in_edge_ids_node_ids (cells : list (nat * nat)) (id : Z) :
  In id (edge_ids (map node_ids cells))
  <-> exists p, In p cells /\ (id = Z.of_nat (fst p) \/ id = Z.of_nat (snd p)).
Proof.
  unfold edge_ids. rewrite in_app_iff, !map_map, !in_map_iff. split.
  - intros [[p [<- Hp]] | [p [<- Hp]]]; exists p; simpl; auto.
  - intros [p [Hp [-> | ->]]]; [left | right]; exists p; auto.
Qed.

Lemma count_id_sources (cells : list (nat * nat)) (v : nat) :
  count_id (map fst (map node_ids cells)) (Z.of_nat v)
  = Z.of_nat (length (filter (fun p => (fst p =? v)%nat) cells)).
Proof.
  induction cells as [| [a b] cells IH]; [reflexivity |].
  cbn [map fst node_ids filter]. rewrite count_id_cons, IH.
  destruct (Nat.eqb_spec a v) as [E | E]; destruct (Z.eqb_spec (Z.of_nat a) (Z.of_nat v));
    cbn [length]; lia.
Qed.

Lemma count_id_targets (cells : list (nat * nat)) (v : nat) :
  count_id (map snd (map node_ids cells)) (Z.of_nat v)
  = Z.of_nat (length (filter (fun p => (snd p =? v)%nat) cells)).
Proof.
  induction cells as [| [a b] cells IH]; [reflexivity |].
  cbn [map snd node_ids filter]. rewrite count_id_cons, IH.
  destruct (Nat.eqb_spec b v) as [E | E]; destruct (Z.eqb_spec (Z.of_nat b) (Z.of_nat v));
    cbn [length]; lia.
Qed.

(** X20: from an adjacency matrix to its degrees.  On a well-formed n by n
    matrix, n > 0, in which every node has an edge (leaving or entering),
    [plot_in_out_degree_distributions] returns: there are n nodes, the
    out-degree of a node is the number of active cells in its row and its
    in-degree the number of active cells in its column. *)
Theorem adjacency_matrix_degrees
    (n : nat) (rows : list (list npscalar)) (dataset_name : string)
    (Hwf : wf_ndarray (Nd2 n n rows) = true)
    (Hnodes : (0 < n)%nat)
    (Hcovered : forall v, (v < n)%nat ->
       exists u,
         In (v, u) (active_cells (Nd2 n n rows) n n (active_value (Nd2 n n rows)))
         \/ In (u, v) (active_cells (Nd2 n n rows) n n (active_value (Nd2 n n rows)))) :
  exists plots,
    plot_in_out_degree_distributions (PyArray (Nd2 n n rows)) dataset_name = Ok plots
    /\ length (plot_out_degrees plots) = n
    /\ length (plot_in_degrees plots) = n
    /\ forall v,
         nth v (plot_out_degrees plots) 0%Z
         = Z.of_nat (length (filter (fun p => (fst p =? v)%nat)
                       (active_cells (Nd2 n n rows) n n (active_value (Nd2 n n rows)))))
         /\ nth v (plot_in_degrees plots) 0%Z
            = Z.of_nat (length (filter (fun p => (snd p =? v)%nat)
                          (active_cells (Nd2 n n rows) n n (active_value (Nd2 n n rows))))).
Proof.
  set (cells := active_cells (Nd2 n n rows) n n (active_value (Nd2 n n rows))) in *.
  assert (Hbound : forall p, In p cells -> (fst p < n)%nat /\ (snd p < n)%nat).
  { intros [i j] Hp. apply (in_active_cells n n rows _ i j Hwf) in Hp as [c [Hc _]].
    exact (cell_in_bounds n n rows i j c Hwf Hc). }
  assert (Hne : cells <> []).
  { destruct (Hcovered 0%nat Hnodes) as [u [H | H]]; intros E; rewrite E in H; destruct H. }
  assert (Hidn : forall k, (k < n)%nat -> In (Z.of_nat k) (edge_ids (map node_ids cells))).
  { intros k Hk. apply in_edge_ids_node_ids.
    destruct (Hcovered k Hk) as [u [H | H]]; eexists; (split; [exact H |]); simpl; auto. }
  assert (Hidb : forall id, In id (edge_ids (map node_ids cells)) -> (0 <= id < Z.of_nat n)%Z).
  { intros id Hid. apply in_edge_ids_node_ids in Hid as [p [Hp Hid]].
    destruct (Hbound p Hp). lia. }
  assert (Hdense : dense_ids (edge_ids (map node_ids cells))).
  { intros id Hid. pose proof (Hidb id Hid) as Hb. split; [lia |].
    intros k Hk. rewrite <- (Z2Nat.id k) by lia. apply Hidn. lia. }
  assert (Hmax : (max_id (edge_ids (map node_ids cells)) + 1 = Z.of_nat n)%Z).
  { unfold max_id.
    pose proof (max_id_ge _ (-1)%Z _ (Hidn (n - 1)%nat ltac:(lia))) as Hge.
    destruct (max_id_attained (edge_ids (map node_ids cells)) (-1)%Z) as [H | H]; [lia |].
    apply Hidb in H. lia. }
  destruct (degree_distributions_on_dense_ids (map node_ids cells) dataset_name Hdense)
    as [plots [Hrun [Hli [Hlo [Hcount _]]]]].
  { intros E. apply map_eq_nil in E. contradiction. }
  exists plots. split.
  - unfold plot_in_out_degree_distributions, edge_index_of_input, shape_at.
    cbn [shape nth_error bind]. rewrite Nat.eqb_refl.
    rewrite (convert_square n rows Hwf), transpose_asarray_pairs. fold cells.
    destruct (map node_ids cells) as [| q qs] eqn:E.
    + apply map_eq_nil in E. contradiction.
    + cbn [bind]. exact Hrun.
  - split; [lia |]. split; [lia |]. intros v. destruct (Hcount v) as [Ho Hi].
    rewrite Ho, Hi, count_id_sources, count_id_targets. split; reflexivity.
Qed.

Lemma adjacency_matrix_degrees_witness :
  exists plots,
    plot_in_out_degree_distributions (PyArray (Nd2 2 2 mask_2x2)) "mask" = Ok plots
    /\ length (plot_out_degrees plots) = 2%nat
    /\ length (plot_in_degrees plots) = 2%nat
    /\ forall v,
         nth v (plot_out_degrees plots) 0%Z
         = Z.of_nat (length (filter (fun p => (fst p =? v)%nat)
                       (active_cells (Nd2 2 2 mask_2x2) 2 2 (active_value (Nd2 2 2 mask_2x2)))))
         /\ nth v (plot_in_degrees plots) 0%Z
            = Z.of_nat (length (filter (fun p => (snd p =? v)%nat)
                          (active_cells (Nd2 2 2 mask_2x2) 2 2
                             (active_value (Nd2 2 2 mask_2x2))))).
Proof.
  apply (adjacency_matrix_degrees 2 mask_2x2 "mask").
  - reflexivity.
  - lia.
  - intros v Hv. exists v. left.
    destruct v as [| [| v]]; [simpl; tauto | simpl; tauto | lia].
Defined.

(** * The igraph branch on a graph without edges *)

(** X21: in the igraph branch, when the graph built has no edge (its list of
    betweenness values is empty), the maximum of the empty array of raw
    weights ends the call with ValueError, before the labels are read and
    before anything is drawn. *)
Theorem igraph_without_edges_raises
    (ig : igraph_api) (url : string) (a edge_index : ndarray)
    (num_of_nodes : nat) (edge_index_tuples : list (npscalar * npscalar))
    (g : ig_graph ig) (node_labels : list Z) (dataset_name : string)
    (Hinput : edge_index_of_input a = Ok edge_index)
    (Hedges : nodes_and_edge_tuples edge_index = Ok (num_of_nodes, edge_index_tuples))
    (Hbuild : build_igraph ig num_of_nodes edge_index_tuples = Ok g)
    (Hbetweenness : ig_edge_betweenness ig g = []) :
  visualize_graph ig url (PyArray a) node_labels dataset_name IGRAPH = Raise ValueError.
Proof.
  unfold visualize_graph, draw_edge_index. rewrite Hinput. cbn [bind].
  rewrite Hedges. cbn [bind dispatch_tool]. unfold igraph_branch.
  rewrite Hbuild. cbn [bind]. rewrite Hbetweenness. reflexivity.
Qed.

Lemma igraph_without_edges_raises_witness :
  visualize_graph sample_igraph "url" (PyArray (Nd2 2 0 [[]; []])) [9]%Z "cora" IGRAPH
  = Raise ValueError.
Proof.
  apply (igraph_without_edges_raises sample_igraph "url" (Nd2 2 0 [[]; []])
           (Nd2 2 0 [[]; []]) 0 [] (0%nat, []) [9]%Z "cora"); reflexivity.
Defined.
